(** * rcprep: session bookkeeping of the short-answer question generator

    A shallow embedding of [main_script.py]: the Streamlit script is one
    linear program that is re-run on every interaction and threads the
    session dictionary through its blocks.  Each block of the script is a
    function on an explicit [session] record; the external collaborators
    (the completion service, the transcription service, the clock, the
    SHA-256 digest) appear as inputs of those functions, and what the
    script shows or sends is collected in an [outcome]. *)

From Stdlib Require Import ZArith String Ascii List Lia Bool SpecFloat.
From stdpp Require Import gmap strings list sorting.

#[local] Set Warnings "-register-all,-clear-no-such-hyp".
Local Open Scope string_scope.
Local Open Scope list_scope.
Local Open Scope Z_scope.

(** ** Python strings

    A [str] is a [string] whose characters are the code points below 256. *)
Module PyStr.

(** [str.isspace] on one code point below 256: U+0009..U+000D,
    U+001C..U+0020, U+0085 and U+00A0. *)
Definition is_space (c : ascii) : bool :=
  let n := N_of_ascii c in
  ((9 <=? n) && (n <=? 13) || (28 <=? n) && (n <=? 32)
   || (n =? 133) || (n =? 160))%N.

Fixpoint lstrip (s : string) : string :=
  match s with
  | String c s' => if is_space c then lstrip s' else s
  | EmptyString => EmptyString
  end.

(** [rstrip] keeps a character when something that is not white space
    follows it or it is not white space itself. *)
Fixpoint rstrip (s : string) : string :=
  match s with
  | String c s' =>
      match rstrip s' with
      | EmptyString => if is_space c then EmptyString else String c EmptyString
      | r => String c r
      end
  | EmptyString => EmptyString
  end.

(** [s.strip()] *)
Definition strip (s : string) : string := rstrip (lstrip s).

(** Truth value of a [str]: non-empty. *)
Definition nonempty (s : string) : bool :=
  match s with EmptyString => false | String _ _ => true end.

(** [f"{a} {b}"] *)
Definition join_space (a b : string) : string := a +:+ " " +:+ b.

(** The shape of a stripped text: no white space at the front,
    respectively at the end. *)
Definition starts_ok (s : string) : bool :=
  match s with
  | String c _ => negb (is_space c)
  | EmptyString => true
  end.

Fixpoint ends_ok (s : string) : bool :=
  match s with
  | EmptyString => true
  | String c EmptyString => negb (is_space c)
  | String _ s' => ends_ok s'
  end.

End PyStr.

(** ** Parsed JSON, as [json.loads] returns it

    Objects are association lists with distinct keys.  Numbers are the
    integers; a number with a fraction or an exponent (a Python [float])
    has no representation here, since what [sum] does with floats depends
    on the version of the interpreter. *)
Inductive json : Type :=
  | JNull
  | JBool (b : bool)
  | JInt (n : Z)
  | JStr (s : string)
  | JList (items : list json)
  | JDict (fields : list (string * json)).

(** Exceptions the script can meet. *)
Inductive exn : Type :=
  | AttributeError
  | TypeError
  | IndexError
  | ZeroDivisionError
  | OverflowError.

Module Json.

(** Python truth value of a parsed value. *)
Definition truthy (v : json) : bool :=
  match v with
  | JNull => false
  | JBool b => b
  | JInt n => negb (n =? 0)
  | JStr s => PyStr.nonempty s
  | JList l => match l with [] => false | _ => true end
  | JDict d => match d with [] => false | _ => true end
  end.

Fixpoint assoc (k : string) (d : list (string * json)) : option json :=
  match d with
  | [] => None
  | (k', v) :: d' => if String.eqb k k' then Some v else assoc k d'
  end.

(** [item.get(k)] and [item.get(k, dflt)]: [get] exists on a dict only. *)
Definition get (item : json) (k : string) (dflt : json) : exn + json :=
  match item with
  | JDict d => inr (default dflt (assoc k d))
  | _ => inl AttributeError
  end.

(** [v.strip()]: [strip] exists on a str only. *)
Definition strip (v : json) : exn + string :=
  match v with
  | JStr s => inr (PyStr.strip s)
  | _ => inl AttributeError
  end.

(** [for x in v]: the elements a [for] loop or a comprehension sees.
    A dict yields its keys, a str its characters. *)
Definition iterate (v : json) : exn + list json :=
  match v with
  | JList l => inr l
  | JDict d => inr (map (fun kv => JStr (fst kv)) d)
  | JStr s => inr (map (fun c => JStr (String c EmptyString)) (list_ascii_of_string s))
  | _ => inl TypeError
  end.

End Json.

(** ** Python floats

    A [float] is an IEEE 754 binary64 number, here the [spec_float] of the
    standard library at precision 53 and maximal exponent 1024, whose
    operations round to nearest, ties to even, as the machine does. *)
Module PyFloat.

Definition prec : Z := 53.
Definition emax : Z := 1024.

Definition finite_or_overflow (x : spec_float) : exn + spec_float :=
  match x with
  | S754_infinity _ => inl OverflowError
  | _ => inr x
  end.

(** The magnitude [n] with sign [s] as an exact, unrounded operand. *)
Definition exact (s : bool) (n : Z) : spec_float :=
  match n with
  | Zpos p => S754_finite s p 0
  | _ => S754_zero s
  end.

(** [float(n)] for an [int] operand of a float operation: correctly
    rounded, [OverflowError] beyond the largest double. *)
Definition of_int (n : Z) : exn + spec_float :=
  finite_or_overflow (binary_normalize prec emax n 0 false).

(** [a / b] on two [int]s: the double nearest to the exact quotient. *)
Definition int_truediv (a b : Z) : exn + spec_float :=
  if b =? 0 then inl ZeroDivisionError
  else finite_or_overflow
         (SFdiv prec emax (exact (a <? 0) (Z.abs a)) (exact (b <? 0) (Z.abs b))).

(** [x * n] for a float [x] and an [int] [n]. *)
Definition mul_int (x : spec_float) (n : Z) : exn + spec_float :=
  match of_int n with
  | inl e => inl e
  | inr y => inr (SFmul prec emax x y)
  end.

(** The integer nearest to [num / den], ties to even ([0 <= num], [0 < den]). *)
Definition div_half_even (num den : Z) : Z :=
  let q := num / den in
  match 2 * (num mod den) ?= den with
  | Lt => q
  | Gt => q + 1
  | Eq => if Z.even q then q else q + 1
  end.

(** The double written as the decimal [k / 10^ndigits], as a float literal
    or [float(str)] reads it. *)
Definition of_decimal (s : bool) (k : Z) (ndigits : nat) : spec_float :=
  SFdiv prec emax (exact s k) (exact false (10 ^ Z.of_nat ndigits)).

(** [round(x, ndigits)] for [0 <= ndigits] (the script passes 1): a
    finite [x] is written out exactly, rounded half to even to [ndigits]
    decimals, and the decimal read back as a double; zeros, infinities
    and nan round to themselves. *)
Definition round (x : spec_float) (ndigits : nat) : exn + spec_float :=
  match x with
  | S754_finite s m e =>
      let scale := 10 ^ Z.of_nat ndigits in
      let k := if 0 <=? e then Zpos m * 2 ^ e * scale
               else div_half_even (Zpos m * scale) (2 ^ (- e)) in
      finite_or_overflow (of_decimal s k ndigits)
  | _ => inr x
  end.

End PyFloat.

(** ** Failing computations

    A Python expression that may raise evaluates to [inl] of the
    exception; statements are sequenced with stdpp's [x ← m; k]. *)
#[export] Instance exn_ret : MRet (sum exn) := fun _ x => inr x.
#[export] Instance exn_bind : MBind (sum exn) := fun _ _ f m =>
  match m with
  | inl e => inl e
  | inr x => f x
  end.

(** ** The session dictionary [st.session_state] *)

(** One normalised entry of a question list. *)
Record Question := mkQuestion {
  topic : string;
  question : string;
  answer_key : string
}.

(** One entry of [all_question_sets]. *)
Record QuestionSet := mkQuestionSet {
  set_id : nat;
  set_questions : list Question;
  topics : list string;
  timestamp : string
}.

Inductive Mode := idle | generate | retry.

(** The keys of the session dictionary the script reads or writes after
    its initialisation.  [all_question_sets] is absent until the first
    commit; [last_audio_hash] holds the keys [last_audio_hash_{i}], whose
    value is [None] until a recording was merged; [ans] holds the text-area
    keys [ans_{qid}_{i}]. *)
Record session := mkSession {
  question_set_id : Z;
  questions : list Question;
  user_answers : list string;
  evaluations : json;
  mode : Mode;
  current_set_id : option nat;
  generate_now : bool;
  pdf_text : string;
  all_question_sets : option (list QuestionSet);
  last_audio_hash : gmap nat (option string);
  ans : gmap (Z * nat) string
}.

(** The state the initialisation block leaves in a fresh session. *)
Definition initial_session : session :=
  {| question_set_id := 0; questions := []; user_answers := [];
     evaluations := JList []; mode := idle; current_set_id := None;
     generate_now := false; pdf_text := ""; all_question_sets := None;
     last_audio_hash := ∅; ans := ∅ |}.

Definition set_question_set_id (v : Z) (s : session) : session :=
  mkSession v (questions s) (user_answers s) (evaluations s) (mode s)
    (current_set_id s) (generate_now s) (pdf_text s) (all_question_sets s)
    (last_audio_hash s) (ans s).

Definition set_questions_key (v : list Question) (s : session) : session :=
  mkSession (question_set_id s) v (user_answers s) (evaluations s) (mode s)
    (current_set_id s) (generate_now s) (pdf_text s) (all_question_sets s)
    (last_audio_hash s) (ans s).

Definition set_user_answers (v : list string) (s : session) : session :=
  mkSession (question_set_id s) (questions s) v (evaluations s) (mode s)
    (current_set_id s) (generate_now s) (pdf_text s) (all_question_sets s)
    (last_audio_hash s) (ans s).

Definition set_evaluations (v : json) (s : session) : session :=
  mkSession (question_set_id s) (questions s) (user_answers s) v (mode s)
    (current_set_id s) (generate_now s) (pdf_text s) (all_question_sets s)
    (last_audio_hash s) (ans s).

Definition set_mode (v : Mode) (s : session) : session :=
  mkSession (question_set_id s) (questions s) (user_answers s) (evaluations s) v
    (current_set_id s) (generate_now s) (pdf_text s) (all_question_sets s)
    (last_audio_hash s) (ans s).

Definition set_current_set_id (v : option nat) (s : session) : session :=
  mkSession (question_set_id s) (questions s) (user_answers s) (evaluations s)
    (mode s) v (generate_now s) (pdf_text s) (all_question_sets s)
    (last_audio_hash s) (ans s).

Definition set_generate_now (v : bool) (s : session) : session :=
  mkSession (question_set_id s) (questions s) (user_answers s) (evaluations s)
    (mode s) (current_set_id s) v (pdf_text s) (all_question_sets s)
    (last_audio_hash s) (ans s).

Definition set_all_question_sets (v : option (list QuestionSet)) (s : session)
  : session :=
  mkSession (question_set_id s) (questions s) (user_answers s) (evaluations s)
    (mode s) (current_set_id s) (generate_now s) (pdf_text s) v
    (last_audio_hash s) (ans s).

Definition set_last_audio_hash (v : gmap nat (option string)) (s : session)
  : session :=
  mkSession (question_set_id s) (questions s) (user_answers s) (evaluations s)
    (mode s) (current_set_id s) (generate_now s) (pdf_text s)
    (all_question_sets s) v (ans s).

Definition set_ans (v : gmap (Z * nat) string) (s : session) : session :=
  mkSession (question_set_id s) (questions s) (user_answers s) (evaluations s)
    (mode s) (current_set_id s) (generate_now s) (pdf_text s)
    (all_question_sets s) (last_audio_hash s) v.

(** ** What a block of the script shows and sends *)

(** The [st.error], [st.success], [st.info], [st.warning] and score lines
    of the script, one constructor per call site. *)
Inductive notice : Type :=
  | error_no_text_extracted
  | error_generation_failed
  | success_generated (n : nat)
  | info_already_transcribed
  | success_dictation_appended
  | warning_empty_transcription
  | error_transcription_failed
  | error_scoring_failed
  | success_evaluation_complete
  | markdown_total_score (total_score max_score : Z) (percentage : spec_float).

(** One entry of the list the grading prompt embeds. *)
Record grading_item := mkGradingItem {
  g_question : string;
  g_expected : string;
  g_response : string
}.

(** The calls to the external services, with what the prompt embeds. *)
Inductive request : Type :=
  | generation_request (num_questions : Z) (used_topics : list string)
      (source_text : string)
  | transcription_request (audio_hash : string)
  | grading_request (items : list grading_item).

(** What a chat completion gives once the code fences are removed and
    [json.loads] ran: the call raised, the text did not parse, or a value. *)
Inductive completion : Type :=
  | service_error
  | unparseable
  | parsed (v : json).

(** What the transcription call gives: it raised, or the [text] of the
    transcription. *)
Inductive transcription : Type :=
  | transcription_failed
  | transcribed (text : string).

(** A recording delivered by an audio widget: the SHA-256 hex digest of
    its bytes and what the transcription service answers for it. *)
Record recording := mkRecording {
  audio_hash : string;
  whisper : transcription
}.

(** The result of running a block: the session it leaves, the notices it
    showed, the requests it sent, and the exception that stopped it, if
    one escaped. *)
Record outcome := mkOutcome {
  final : session;
  notices : list notice;
  calls : list request;
  uncaught : option exn
}.

Definition ok (s : session) : outcome := mkOutcome s [] [] None.

(** Run [f] after [o], unless an exception already stopped the run. *)
Definition and_then (o : outcome) (f : session → outcome) : outcome :=
  match uncaught o with
  | Some _ => o
  | None =>
      let o' := f (final o) in
      mkOutcome (final o') (notices o ++ notices o') (calls o ++ calls o')
        (uncaught o')
  end.

(** ** Topic ledger *)

(** [get_used_topics()]: every topic of every stored set is added to a
    set, and the set is returned sorted; [sorted] orders [str] as
    [String.le] does, lexicographically on the code points. *)
Definition get_used_topics (s : session) : list string :=
  let used : gset string :=
    foldl (fun used st => foldl (fun used t => {[ t ]} ∪ used) used (topics st))
      ∅ (default [] (all_question_sets s)) in
  merge_sort String.le (elements used).

(** ** Question generation *)

(** The comprehension's filter and element for one [item]:
    [item.get("question") and item.get("answer_key")] decides on the raw
    values, the kept entry holds the stripped ones. *)
Definition normalize_item (item : json) : exn + option Question :=
  q ← Json.get item "question" JNull;
  if Json.truthy q then
    a ← Json.get item "answer_key" JNull;
    if Json.truthy a then
      t ← Json.get item "topic" (JStr "");
      t' ← Json.strip t;
      q0 ← Json.get item "question" (JStr "");
      q' ← Json.strip q0;
      a0 ← Json.get item "answer_key" (JStr "");
      a' ← Json.strip a0;
      mret (Some (mkQuestion t' q' a'))
    else mret None
  else mret None.

Fixpoint normalize_list (items : list json) : exn + list Question :=
  match items with
  | [] => mret []
  | item :: rest =>
      o ← normalize_item item;
      qs ← normalize_list rest;
      mret (match o with Some q => q :: qs | None => qs end)
  end.

(** [all_questions], when the comprehension over [all_items] completes. *)
Definition normalize_items (all_items : json) : exn + list Question :=
  items ← Json.iterate all_items;
  normalize_list items.

(** The body of the [try]: [all_questions] and the notice of the
    [except] branch, which sets [all_questions = []]. *)
Definition generated_questions (resp : completion)
  : list Question * list notice :=
  match resp with
  | parsed all_items =>
      match normalize_items all_items with
      | inr all_questions => (all_questions, [])
      | inl _ => ([], [error_generation_failed])
      end
  | service_error | unparseable => ([], [error_generation_failed])
  end.

(** A completion from which the [try] gets no question list: the call
    raised, the text did not parse, or the comprehension raised. *)
Definition generation_failed (resp : completion) : bool :=
  match resp with
  | parsed all_items =>
      match normalize_items all_items with
      | inl _ => true
      | inr _ => false
      end
  | service_error | unparseable => true
  end.

(** The block under [if st.session_state.get("generate_now")], entered
    with the flag set: one completion request, and the commit when
    [all_questions] is not empty.  [now] is the clock's [strftime]. *)
Definition generation_block (num_questions : Z) (resp : completion)
    (now : string) (s : session) : outcome :=
  let s := set_generate_now false s in
  let req := generation_request num_questions (get_used_topics s) (pdf_text s) in
  let '(all_questions, shown) := generated_questions resp in
  match all_questions with
  | [] => mkOutcome s shown [req] None
  | _ :: _ =>
      let s := set_questions_key all_questions s in
      let s := set_user_answers (replicate (length all_questions) "") s in
      let all_sets := default [] (all_question_sets s) in
      let topics := List.filter PyStr.nonempty (map topic all_questions) in
      let new_set_id := length all_sets in
      let s := set_all_question_sets
                 (Some (all_sets ++ [mkQuestionSet new_set_id all_questions topics now])) s in
      let s := set_current_set_id (Some new_set_id) s in
      mkOutcome s (shown ++ [success_generated (length all_questions)]) [req] None
  end.

(** The handler of the "Generate Questions" button, up to its [st.rerun()]. *)
Definition click_generate_questions (s : session) : outcome :=
  if PyStr.nonempty (pdf_text s) then
    ok (set_question_set_id (question_set_id s + 1) (set_generate_now true s))
  else mkOutcome s [error_no_text_extracted] [] None.

(** The handler of the "Generate a New Set of Questions" button, up to
    its [st.rerun()]. *)
Definition click_generate_new_set (s : session) : outcome :=
  let s := set_questions_key [] s in
  let s := set_user_answers [] s in
  let s := set_evaluations (JList []) s in
  let s := set_mode generate s in
  let s := set_generate_now true s in
  ok (set_question_set_id (question_set_id s + 1) s).

(** The generation section of one run of the script, which is under
    [if uploaded_file]: the block runs when the flag is set. *)
Definition generation_section (uploaded_file : bool) (num_questions : Z)
    (resp : completion) (now : string) (s : session) : outcome :=
  if uploaded_file && generate_now s
  then generation_block num_questions resp now s
  else ok s.

(** A generation attempt from either button: the handler, then the
    generation section of the run its [st.rerun()] starts (of the same
    run, when the first handler did not rerun).  The first button is
    rendered under [if uploaded_file], the second under
    [if st.session_state["questions"]]. *)
Definition attempt_generate_questions (num_questions : Z) (resp : completion)
    (now : string) (s : session) : outcome :=
  and_then (click_generate_questions s)
    (generation_section true num_questions resp now).

Definition attempt_generate_new_set (uploaded_file : bool) (num_questions : Z)
    (resp : completion) (now : string) (s : session) : outcome :=
  and_then (click_generate_new_set s)
    (generation_section uploaded_file num_questions resp now).

(** ** Answers and dictation *)

(** [st.session_state["user_answers"][i] = v]: an index out of range
    raises. *)
Definition store_answer (i : nat) (v : string) (s : session) : exn + session :=
  if decide (i < length (user_answers s))%nat
  then inr (set_user_answers (<[i := v]> (user_answers s)) s)
  else inl IndexError.

(** [st.session_state.get(f"ans_{qid}_{i}", "").strip()] *)
Definition existing_text (i : nat) (s : session) : string :=
  PyStr.strip (default "" (ans s !! (question_set_id s, i))).

(** The merge both places of the loop body write down:
    [f"{existing_text} {dictated_text}"] when text exists, else
    [dictated_text]. *)
Definition merged_text (i : nat) (dictated_text : string) (s : session)
  : string :=
  let existing_text := existing_text i s in
  if PyStr.nonempty existing_text
  then PyStr.join_space existing_text dictated_text
  else dictated_text.

(** The [try] of the loop body for a delivered recording [a]: the session
    it leaves, [dictated_text], and what it showed and sent. *)
Definition dictation (i : nat) (a : recording) (s : session)
  : session * string * list notice * list request :=
  if decide (mjoin (last_audio_hash s !! i) = Some (audio_hash a)) then
    (s, "", [info_already_transcribed], [])
  else
    let sent := [transcription_request (audio_hash a)] in
    match whisper a with
    | transcription_failed => (s, "", [error_transcription_failed], sent)
    | transcribed text =>
        let dictated_text := PyStr.strip text in
        if PyStr.nonempty dictated_text then
          let new_text := merged_text i dictated_text s in
          let s := set_ans (<[(question_set_id s, i) := new_text]> (ans s)) s in
          match store_answer i new_text s with
          | inl _ => (s, dictated_text, [error_transcription_failed], sent)
          | inr s =>
              let s := set_last_audio_hash
                         (<[i := Some (audio_hash a)]> (last_audio_hash s)) s in
              (s, dictated_text, [success_dictation_appended], sent)
          end
        else (s, dictated_text, [warning_empty_transcription], sent)
    end.

(** [if last_hash_key not in st.session_state]: the key
    [last_audio_hash_{i}] is created with [None]. *)
Definition init_last_hash (i : nat) (s : session) : session :=
  match last_audio_hash s !! i with
  | None => set_last_audio_hash (<[i := None]> (last_audio_hash s)) s
  | Some _ => s
  end.

(** One iteration of [for i, q in enumerate(questions)], with what the
    audio widget of question [i] delivers in this run. *)
Definition answer_slot (i : nat) (audio_data : option recording) (s : session)
  : outcome :=
  let s := init_last_hash i s in
  let '(s, dictated_text, shown, sent) :=
    match audio_data with
    | Some a => dictation i a s
    | None => (s, "", [], [])
    end in
  let new_text := merged_text i dictated_text s in
  let s := set_ans (<[(question_set_id s, i) := new_text]> (ans s)) s in
  match store_answer i new_text s with
  | inl e => mkOutcome s shown sent (Some e)
  | inr s => mkOutcome s shown sent None
  end.

(** The block under [if st.session_state["questions"]] up to the loop's
    end: [user_answers] is reset when its length differs from the
    question list's, then every question's slot runs in order. *)
Definition answers_block (audio : nat → option recording) (s : session)
  : outcome :=
  match questions s with
  | [] => ok s
  | _ :: _ =>
      let s :=
        if decide (length (user_answers s) ≠ length (questions s))
        then set_user_answers (replicate (length (questions s)) "") s
        else s in
      foldl (fun o i => and_then o (answer_slot i (audio i)))
        (ok s) (seq 0 (length (questions s)))
  end.

(** ** Evaluation *)

(** The list the grading prompt embeds: one entry per pair of
    [zip(questions, user_answers)]. *)
Fixpoint grading_items (questions : list Question) (user_answers : list string)
  : list grading_item :=
  match questions, user_answers with
  | q :: questions', a :: user_answers' =>
      mkGradingItem (question q) (answer_key q) a
        :: grading_items questions' user_answers'
  | _, _ => []
  end.

(** [score_short_answers(user_answers, questions)]: the value it returns,
    what it showed and the request it sent. *)
Definition score_short_answers (user_answers : list string)
    (questions : list Question) (resp : completion)
  : json * list notice * list request :=
  let sent := [grading_request (grading_items questions user_answers)] in
  match resp with
  | parsed results => (results, [], sent)
  | service_error | unparseable => (JList [], [error_scoring_failed], sent)
  end.

(** [total + r.get("score", 0)] for one element [r] of [results]. *)
Definition add_score (total : Z) (r : json) : exn + Z :=
  v ← Json.get r "score" (JInt 0);
  match v with
  | JInt n => mret (total + n)
  | JBool b => mret (total + (if b then 1 else 0))
  | _ => inl TypeError
  end.

(** [sum(r.get("score", 0) for r in results)], from the running total. *)
Fixpoint sum_scores (total : Z) (results : list json) : exn + Z :=
  match results with
  | [] => mret total
  | r :: rest => t ← add_score total r; sum_scores t rest
  end.

(** [len(results)] *)
Definition len (v : json) : exn + Z :=
  match v with
  | JList l => mret (Z.of_nat (length l))
  | JDict d => mret (Z.of_nat (length d))
  | JStr s => mret (Z.of_nat (String.length s))
  | _ => inl TypeError
  end.

(** [round(total_score / max_score * 100, 1)] *)
Definition percentage (total_score max_score : Z) : exn + spec_float :=
  q ← PyFloat.int_truediv total_score max_score;
  p ← PyFloat.mul_int q 100;
  PyFloat.round p 1.

(** The three assignments under [if results]. *)
Definition aggregate (results : json) : exn + (Z * Z * spec_float) :=
  items ← Json.iterate results;
  total_score ← sum_scores 0 items;
  n ← len results;
  let max_score := n * 10 in
  pct ← percentage total_score max_score;
  mret (total_score, max_score, pct).

(** The handler of the "Evaluate My Answers" button, up to the score
    line; the per-question feedback it then renders is not part of the
    model. *)
Definition click_evaluate (resp : completion) (s : session) : outcome :=
  let '(results, shown, sent) :=
    score_short_answers (user_answers s) (questions s) resp in
  let s := set_evaluations results s in
  if Json.truthy results then
    match aggregate results with
    | inl e => mkOutcome s shown sent (Some e)
    | inr (total_score, max_score, pct) =>
        mkOutcome s
          (shown ++ [success_evaluation_complete;
                     markdown_total_score total_score max_score pct;
                     success_evaluation_complete])
          sent None
    end
  else mkOutcome s shown sent None.

(** A run of the script in which the Evaluate button was clicked: the
    answers block, whose end the button follows. *)
Definition run_evaluate (audio : nat → option recording) (resp : completion)
    (s : session) : outcome :=
  match questions s with
  | [] => ok s
  | _ :: _ => and_then (answers_block audio s) (click_evaluate resp)
  end.

(** ** The aggregate as the specification words it *)

(** [round(100 * total / max, 1)]: the product first, then the division. *)
Definition spec_percentage (total max : Z) : exn + spec_float :=
  q ← PyFloat.int_truediv (100 * total) max;
  PyFloat.round q 1.

(** ** Sessions and responses used as concrete inputs *)
Module Examples.

Definition airway : Question :=
  mkQuestion "Airway trauma" "What is the best treatment?" "Secure the airway".

Definition first_set : QuestionSet :=
  mkQuestionSet 0 [airway] ["Airway trauma"] "2024-05-01 10:00:00".

(** A session in round 1 with one question, whose text area and answer
    list hold [stored] and whose last merged recording has digest [h]. *)
Definition answering (stored : string) (h : option string) : session :=
  {| question_set_id := 1; questions := [airway]; user_answers := [stored];
     evaluations := JList []; mode := idle; current_set_id := Some 0%nat;
     generate_now := false; pdf_text := "Thoracic surgery manual";
     all_question_sets := Some [first_set];
     last_audio_hash := {[ 0%nat := h ]}; ans := {[ (1, 0%nat) := stored ]} |}.

Definition recording_B : recording := mkRecording "digest-1" (transcribed "B").

Definition evaluation (score : Z) : json :=
  JDict [("score", JInt score); ("feedback", JStr "Good.");
         ("model_answer", JStr "Secure the airway.")].

(** The session above after its answer was evaluated with score 9. *)
Definition evaluated : session :=
  set_evaluations (JList [evaluation 9]) (answering "Intubate" None).

Definition item (t q a : string) : json :=
  JDict [("topic", JStr t); ("question", JStr q); ("answer_key", JStr a)].

(** A well-formed response with two entries. *)
Definition two_items : json :=
  JList [item "Esophagus" "How is a perforation managed?" "Drain and repair";
         item "Pleura" "How is an empyema staged?" "Three stages"].

(** A response whose only entry has a blank question. *)
Definition blank_question : json := JList [item "Pleura" " " "Three stages"].

Definition three_questions : list Question :=
  [airway; mkQuestion "Esophagus" "Q2" "K2"; mkQuestion "Pleura" "Q3" "K3"].

(** A history of two sets with a shared topic. *)
Definition two_rounds : session :=
  set_all_question_sets
    (Some [mkQuestionSet 0 [] ["Trauma"; "Airway"] "t0";
           mkQuestionSet 1 [] ["Airway"; "Esophagus"] "t1"])
    initial_session.

End Examples.

(** ** The rest of the script *)

(** An uploaded file as the PDF library opens it: its name and, page by
    page, what [page.get_text("text")] returns.  A file the library
    cannot open is outside the model. *)
Record upload := mkUpload {
  file_name : string;
  page_texts : list string
}.

(** [extract_text_from_pdf]: the texts of the pages, appended in order. *)
Definition extract_text_from_pdf (pdf : upload) : string :=
  foldl (fun text page_text => text +:+ page_text) "" (page_texts pdf).

Definition set_pdf_text (v : string) (s : session) : session :=
  mkSession (question_set_id s) (questions s) (user_answers s) (evaluations s)
    (mode s) (current_set_id s) (generate_now s) v (all_question_sets s)
    (last_audio_hash s) (ans s).

(** The session with the two keys only the upload block uses: whether
    the key [pdf_text] is in the dictionary, and [uploaded_file_name].
    [pdf_text (state p)] is what [st.session_state.get("pdf_text", "")]
    reads. *)
Record page := mkPage {
  state : session;
  has_pdf_text : bool;
  uploaded_file_name : option string
}.

Definition initial_page : page := mkPage initial_session false None.

Inductive upload_notice : Type :=
  | success_pdf_uploaded
  | warning_no_text_extracted
  | warning_ocr_required.

(** The block under [# PDF UPLOAD]: the text is extracted when no text
    is stored yet or the stored file name differs from the uploaded
    file's, and the warning follows when a file is there and the stored
    text is empty. *)
Definition upload_block (uploaded_file : option upload) (p : page)
  : page * list upload_notice :=
  match uploaded_file with
  | Some f =>
      let '(p, shown) :=
        if negb (has_pdf_text p)
           || negb (bool_decide (uploaded_file_name p = Some (file_name f)))
        then (mkPage (set_pdf_text (extract_text_from_pdf f) (state p)) true
                (Some (file_name f)),
              [success_pdf_uploaded])
        else (p, []) in
      let pdf_text := if has_pdf_text p then pdf_text (state p) else "" in
      if PyStr.nonempty pdf_text then (p, shown)
      else (p, shown ++ [warning_no_text_extracted])
  | None => (p, [])
  end.

(** The user edits the text area of question [i]: Streamlit stores the
    text under the widget's key [ans_{qid}_{i}] before the next run. *)
Definition type_answer (i : nat) (text : string) (s : session) : session :=
  set_ans (<[(question_set_id s, i) := text]> (ans s)) s.

(** [all_question_sets], read with its default. *)
Definition history (s : session) : list QuestionSet :=
  default [] (all_question_sets s).

(** The sessions the script can be in: the initial one, and what one of
    its blocks leaves, with any answer of the services, any recordings
    and any text typed into a rendered text area.  The Evaluate and New
    Set buttons and the text areas are rendered only when there are
    questions. *)
Inductive reachable : session → Prop :=
  | reach_initial : reachable initial_session
  | reach_upload s text :
      reachable s → reachable (set_pdf_text text s)
  | reach_type s i text :
      reachable s → (i < length (questions s))%nat →
      reachable (type_answer i text s)
  | reach_click_generate s :
      reachable s → reachable (final (click_generate_questions s))
  | reach_generation s uploaded_file num_questions resp now :
      reachable s →
      reachable (final (generation_section uploaded_file num_questions resp now s))
  | reach_answers s audio :
      reachable s → reachable (final (answers_block audio s))
  | reach_evaluate s resp :
      reachable s → questions s ≠ [] →
      reachable (final (click_evaluate resp s))
  | reach_new_set s :
      reachable s → questions s ≠ [] →
      reachable (final (click_generate_new_set s)).

(** The fields of a question carry no surrounding white space. *)
Definition stripped (q : Question) : Prop :=
  PyStr.strip (topic q) = topic q ∧ PyStr.strip (question q) = question q
  ∧ PyStr.strip (answer_key q) = answer_key q.

(** The shape of a stored set: it has a question, its fields are
    stripped, and its topics are the non-empty topics of its questions,
    in their order. *)
Definition set_ok (st : QuestionSet) : Prop :=
  set_questions st ≠ [] ∧ Forall stripped (set_questions st)
  ∧ topics st = List.filter PyStr.nonempty (map topic (set_questions st)).

(** The shape the script keeps the session in. *)
Record well_formed (s : session) : Prop := mkWellFormed {
  wf_set_ids : ∀ k st, history s !! k = Some st → set_id st = k;
  wf_current :
    current_set_id s
    = match history s with
      | [] => None
      | _ :: _ => Some (pred (length (history s)))
      end;
  wf_active :
    questions s ≠ [] → set_questions <$> last (history s) = Some (questions s);
  wf_answers : length (user_answers s) = length (questions s);
  wf_round : 0 ≤ question_set_id s;
  wf_keys : ∀ q i, is_Some (ans s !! (q, i)) → q ≤ question_set_id s;
  wf_sets : Forall set_ok (history s)
}.

(** The session keys outside the answers, the text areas and the
    digests are the same in [s] and [s']. *)
Definition same_round (s s' : session) : Prop :=
  question_set_id s' = question_set_id s ∧ questions s' = questions s ∧
  evaluations s' = evaluations s ∧ mode s' = mode s ∧
  current_set_id s' = current_set_id s ∧ generate_now s' = generate_now s ∧
  pdf_text s' = pdf_text s ∧ all_question_sets s' = all_question_sets s.

(** No audio widget delivers a recording that would be transcribed: each
    delivered recording has the digest stored for its question. *)
Definition quiet (audio : nat → option recording) (s : session) : Prop :=
  ∀ i a, audio i = Some a → mjoin (last_audio_hash s !! i) = Some (audio_hash a).

#[export] Instance spec_float_eq_dec : EqDecision spec_float.
Proof. solve_decision. Defined.

(** Whether [round(total / max * 100, 1)] is the double of a decimal
    [k / 10] with [0 <= k <= 1000] that lies within 0.05 of the exact
    percentage; [k] is the nearest tenth or one of its neighbours. *)
Definition percentage_close (total max : Z) : bool :=
  let k0 := PyFloat.div_half_even (1000 * total) max in
  match percentage total max with
  | inr pct =>
      existsb (fun k =>
                 bool_decide (pct = PyFloat.of_decimal false k 1)
                 && (0 <=? k) && (k <=? 1000)
                 && (2 * Z.abs (k * max - 1000 * total) <=? max))
        [k0 - 1; k0; k0 + 1]
  | inl _ => false
  end.

(** The check above for every total from 0 to [10 * n] of [n]
    evaluations, for [n] from 1 to [bound]. *)
Definition percentages_close_upto (bound : nat) : bool :=
  forallb (fun n =>
             forallb (fun t => percentage_close (Z.of_nat t) (10 * Z.of_nat n))
               (seq 0 (10 * n + 1)))
    (seq 1 bound).

(** ** One run of the script *)

(** The button that carries the click of this run, if any. *)
Inductive click : Type :=
  | no_click
  | clicked_generate
  | clicked_evaluate
  | clicked_new_set.

(** What one pass through the script gets from outside: the uploader's
    file, the slider, the button clicked, the audio widgets (their keys
    [audio_input_{qid}_{i}] carry the round and the index), the answers
    of the two completions the pass may ask for, and the clock. *)
Record pass_input := mkPassInput {
  uploaded_file : option upload;
  slider : Z;
  clicked : click;
  audio_widgets : Z → nat → option recording;
  generation_answer : completion;
  grading_answer : completion;
  clock : string
}.

(** What a pass leaves: the page, the notices of the upload block and of
    the other blocks, the requests, the exception that stopped it, and
    whether it ended in [st.rerun()]. *)
Record pass_result := mkPassResult {
  page_after : page;
  upload_shown : list upload_notice;
  pass_outcome : outcome;
  rerun : bool
}.

(** Step 1, the part of the script under the second [if uploaded_file]:
    the "Generate Questions" button, whose handler ends in [st.rerun()]
    when there is text, then the generation section.  The second
    component tells whether the pass stops for a rerun. *)
Definition step1_generate (inp : pass_input) (s : session) : outcome * bool :=
  match uploaded_file inp with
  | Some _ =>
      let generation :=
        generation_section true (slider inp) (generation_answer inp)
          (clock inp) in
      match clicked inp with
      | clicked_generate =>
          if PyStr.nonempty (pdf_text s)
          then (click_generate_questions s, true)
          else (and_then (click_generate_questions s) generation, false)
      | _ => (generation s, false)
      end
  | None => (ok s, false)
  end.

(** Step 2, the part of the script under
    [if st.session_state["questions"]]: the answers loop, then the two
    buttons in their order. *)
Definition step2_answers (inp : pass_input) (s : session) : outcome * bool :=
  match questions s with
  | [] => (ok s, false)
  | _ :: _ =>
      let o := answers_block (audio_widgets inp (question_set_id s)) s in
      match clicked inp with
      | clicked_evaluate => (and_then o (click_evaluate (grading_answer inp)), false)
      | clicked_new_set => (and_then o click_generate_new_set, true)
      | _ => (o, false)
      end
  end.

(** One pass from the top of the script to its end, to an uncaught
    exception or to the first [st.rerun()]. *)
Definition script_pass (inp : pass_input) (p : page) : pass_result :=
  let '(p, shown) := upload_block (uploaded_file inp) p in
  let s := state p in
  let with_state o := mkPage (final o) (has_pdf_text p) (uploaded_file_name p) in
  let shown :=
    match uploaded_file inp with
    | Some _ =>
        if PyStr.nonempty (pdf_text s) then shown
        else shown ++ [warning_ocr_required]
    | None => shown
    end in
  let '(o, stop) := step1_generate inp s in
  if stop then mkPassResult (with_state o) shown o true
  else
    let '(o', again) := step2_answers inp (final o) in
    let o2 := mkOutcome (final o') (notices o ++ notices o')
                (calls o ++ calls o') (uncaught o') in
    mkPassResult (with_state o2) shown o2
      (again && bool_decide (uncaught o' = None)).

(** One run: a pass and, when it ended in [st.rerun()], the pass that
    follows.  The widgets keep their values in it, no button carries a
    click, and a generation request of the second pass gets its own
    answer and time. *)
Definition script_run (inp : pass_input) (resp' : completion) (now' : string)
    (p : page) : pass_result :=
  let r := script_pass inp p in
  if rerun r then
    let r' := script_pass
                (mkPassInput (uploaded_file inp) (slider inp) no_click
                   (audio_widgets inp) resp' (grading_answer inp) now')
                (page_after r) in
    mkPassResult (page_after r') (upload_shown r ++ upload_shown r')
      (mkOutcome (final (pass_outcome r'))
         (notices (pass_outcome r) ++ notices (pass_outcome r'))
         (calls (pass_outcome r) ++ calls (pass_outcome r'))
         (uncaught (pass_outcome r')))
      false
  else r.

(** The uploader's file, if any, is the one whose text is stored. *)
Definition upload_cached (uploaded_file : option upload) (p : page) : Prop :=
  match uploaded_file with
  | Some f => has_pdf_text p = true ∧ uploaded_file_name p = Some (file_name f)
  | None => True
  end.

(** What the user does between two runs: text typed into text areas the
    page shows (the widget state is written before the script runs), and
    the widget values, the services' answers and the times of the run. *)
Record interaction := mkInteraction {
  edits : list (nat * string);
  inputs : pass_input;
  rerun_answer : completion;
  rerun_clock : string
}.

Definition apply_edit (s : session) (e : nat * string) : session :=
  if decide (e.1 < length (questions s))%nat then type_answer e.1 e.2 s else s.

Definition interact (p : page) (x : interaction) : page :=
  let p := mkPage (foldl apply_edit (state p) (edits x)) (has_pdf_text p)
             (uploaded_file_name p) in
  page_after (script_run (inputs x) (rerun_answer x) (rerun_clock x) p).

(** The page after a sequence of interactions with a new session. *)
Definition page_after_all (xs : list interaction) : page :=
  foldl interact initial_page xs.

(** ** A session to run the properties on *)

Module Scenario.

Definition manual : upload :=
  mkUpload "manual.pdf" ["Thoracic "; "surgery manual"].

(** A scanned file: two pages without text. *)
Definition scan : upload := mkUpload "scan.pdf" [""; ""].

Definition no_audio : Z → nat → option recording := λ _ _, None.

(** The widgets with the manual uploaded, the slider at 2 and the click
    [c]; the grader, when asked, scores 7 and 8. *)
Definition widgets (c : click) : pass_input :=
  mkPassInput (Some manual) 2 c no_audio service_error
    (parsed (JList [Examples.evaluation 7; Examples.evaluation 8]))
    "2024-05-01 09:59:00".

Definition open_file : interaction :=
  mkInteraction [] (widgets no_click) service_error "2024-05-01 09:59:00".

(** The click on "Generate Questions"; the pass after the rerun gets the
    two questions of [Examples.two_items]. *)
Definition generate : interaction :=
  mkInteraction [] (widgets clicked_generate) (parsed Examples.two_items)
    "2024-05-01 10:00:00".

Definition type_answers : interaction :=
  mkInteraction [(0%nat, " Drain it "); (1%nat, "Three")] (widgets no_click)
    service_error "2024-05-01 10:01:00".

(** The page after the file was opened, questions were generated and two
    answers were typed. *)
Definition round_one : page := page_after_all [open_file; generate; type_answers].

End Scenario.

(** * Properties *)

(** ** The model on small inputs *)

Example strip_tab_newline :
  PyStr.strip (String "009" " Secure the airway " +:+ String "010" "")
  = "Secure the airway".
Proof. reflexivity. Qed.

Example strip_blank : PyStr.strip "   " = "".
Proof. reflexivity. Qed.

(** The double nearest to 83.3 is 5861716389999411 * 2^-46. *)
Example literal_83_3 :
  PyFloat.of_decimal false 833 1 = S754_finite false 5861716389999411 (-46).
Proof. by vm_compute. Qed.

(** 25 / 30 is 0.8333333333333334, its product with 100 is
    83.33333333333334, which rounds to 83.3. *)
Example percentage_25_30 :
  PyFloat.int_truediv 25 30 = inr (S754_finite false 7505999378950827 (-53)) ∧
  PyFloat.mul_int (S754_finite false 7505999378950827 (-53)) 100
  = inr (S754_finite false 5864062014805334 (-46)) ∧
  percentage 25 30 = inr (PyFloat.of_decimal false 833 1).
Proof. by vm_compute. Qed.

(** Ties go to the even digit on the exact value of the double. *)
Example round_ties :
  (q ← PyFloat.int_truediv 1 4; PyFloat.round q 1)
  = inr (PyFloat.of_decimal false 2 1) ∧
  (q ← PyFloat.int_truediv 3 4; PyFloat.round q 1)
  = inr (PyFloat.of_decimal false 8 1) ∧
  (q ← PyFloat.int_truediv (-1) 100; PyFloat.round q 1) = inr (S754_zero true).
Proof. by vm_compute. Qed.

(** Entries without a question or an answer key are dropped; a response
    that is not a list of objects makes the comprehension raise. *)
Example normalize_drops_incomplete :
  normalize_items
    (JList [JDict [("topic", JStr "Pleura"); ("question", JStr "Q")];
            JDict [("question", JStr ""); ("answer_key", JStr "K")];
            Examples.item " Esophagus" "Q2 " "K2"])
  = inr [mkQuestion "Esophagus" "Q2" "K2"].
Proof. reflexivity. Qed.

Example normalize_raises :
  normalize_items (JDict [("questions", JList [])]) = inl AttributeError ∧
  normalize_items (JInt 3) = inl TypeError ∧
  normalize_items (JList [Examples.item "T" "Q" "K"; JStr "text"])
  = inl AttributeError ∧
  normalize_items (JList [JDict [("question", JInt 1); ("answer_key", JStr "K")]])
  = inl AttributeError.
Proof. by vm_compute. Qed.

(** ** Stripped strings *)
Module PyStrFacts.
Import PyStr.

Lemma lstrip_starts_ok s : starts_ok (lstrip s) = true.
Proof.
  induction s as [|c s IH]; simpl; [done|].
  destruct (is_space c) eqn:Hc; [done|]. simpl. by rewrite Hc.
Qed.

Lemma lstrip_id s : starts_ok s = true → lstrip s = s.
Proof. destruct s as [|c s]; simpl; [done|]. by destruct (is_space c). Qed.

Lemma rstrip_ends_ok s : ends_ok (rstrip s) = true.
Proof.
  induction s as [|c s IH]; simpl; [done|].
  destruct (rstrip s) as [|c' r] eqn:Hr.
  - destruct (is_space c) eqn:Hc; simpl; [done|]. by rewrite Hc.
  - exact IH.
Qed.

Lemma rstrip_id s : ends_ok s = true → rstrip s = s.
Proof.
  induction s as [|c s IH]; simpl; [done|].
  destruct s as [|c' s'].
  - simpl. by destruct (is_space c).
  - intros H. rewrite (IH H). done.
Qed.

Lemma rstrip_starts_ok s : starts_ok s = true → starts_ok (rstrip s) = true.
Proof.
  destruct s as [|c s]; simpl; [done|]. intros Hc.
  destruct (rstrip s); simpl; [|done].
  destruct (is_space c) eqn:E; simpl in *; [done|]. by rewrite E.
Qed.

Lemma strip_shape s : starts_ok (strip s) = true ∧ ends_ok (strip s) = true.
Proof.
  split; [apply rstrip_starts_ok, lstrip_starts_ok | apply rstrip_ends_ok].
Qed.

Lemma strip_id s : starts_ok s = true → ends_ok s = true → strip s = s.
Proof. intros Hs He. unfold strip. rewrite (lstrip_id _ Hs). by apply rstrip_id. Qed.

Lemma strip_idemp s : strip (strip s) = strip s.
Proof. by apply strip_id; apply strip_shape. Qed.

Lemma app_cons c a b : String c a +:+ b = String c (a +:+ b).
Proof. reflexivity. Qed.

Lemma app_nil_l b : "" +:+ b = b.
Proof. reflexivity. Qed.

Lemma app_assoc a b c : (a +:+ b) +:+ c = a +:+ b +:+ c.
Proof.
  induction a as [|x a IH]; [done|]. by rewrite !app_cons, IH.
Qed.

Lemma starts_ok_app a b :
  nonempty a = true → starts_ok a = true → starts_ok (a +:+ b) = true.
Proof. destruct a; [done|]. by rewrite app_cons. Qed.

Lemma ends_ok_app a b :
  nonempty b = true → ends_ok b = true → ends_ok (a +:+ b) = true.
Proof.
  intros Hb He. induction a as [|c a IH]; [done|].
  rewrite app_cons. simpl.
  destruct (a +:+ b) eqn:Hab; [|done].
  destruct a, b; done.
Qed.

Lemma nonempty_app_l a b : nonempty a = true → nonempty (a +:+ b) = true.
Proof. destruct a; [done|]. by rewrite app_cons. Qed.

Lemma nonempty_join_space a b :
  nonempty a = true → nonempty (join_space a b) = true.
Proof. apply nonempty_app_l. Qed.

(** Joining two stripped, non-empty texts gives a stripped text. *)
Lemma strip_join_space a b :
  nonempty (strip a) = true → nonempty (strip b) = true →
  strip (join_space (strip a) (strip b)) = join_space (strip a) (strip b).
Proof.
  intros Ha Hb. unfold join_space.
  destruct (strip_shape a) as [Hsa _], (strip_shape b) as [_ Heb].
  apply strip_id.
  - by apply starts_ok_app.
  - rewrite <- app_assoc. by apply ends_ok_app.
Qed.

(** The space that follows stripped text is stripped again. *)
Lemma rstrip_space_end t : ends_ok t = true → rstrip (t +:+ " ") = t.
Proof.
  induction t as [|c t IH]; [done|].
  rewrite app_cons. simpl. destruct t as [|c' t'].
  - simpl. intros Hc. by destruct (is_space c).
  - intros He. rewrite (IH He). done.
Qed.

Lemma strip_join_space_empty a :
  strip (join_space (strip a) "") = strip a.
Proof.
  unfold join_space. destruct (strip_shape a) as [Hs He].
  destruct (strip a) as [|c t] eqn:E; [done|].
  unfold strip. rewrite lstrip_id by (by rewrite app_cons).
  by apply rstrip_space_end.
Qed.

Lemma app_nonempty_neq a b : nonempty b = true → a +:+ b ≠ a.
Proof.
  intros Hb. induction a as [|c a IH].
  - rewrite app_nil_l. by destruct b.
  - rewrite app_cons. intros H. injection H as H. by apply IH.
Qed.

Lemma app_space_neq a : a +:+ " " ≠ a.
Proof. by apply app_nonempty_neq. Qed.

End PyStrFacts.

(** ** Dictation merge *)

Lemma store_answer_in_range i v s :
  (i < length (user_answers s))%nat →
  store_answer i v s = inr (set_user_answers (<[i := v]> (user_answers s)) s).
Proof. intros Hi. unfold store_answer. by rewrite decide_True. Qed.

Lemma init_last_hash_frame i s :
  let s0 := init_last_hash i s in
  questions s0 = questions s ∧
  user_answers s0 = user_answers s ∧ ans s0 = ans s ∧
  question_set_id s0 = question_set_id s ∧
  mjoin (last_audio_hash s0 !! i) = mjoin (last_audio_hash s !! i).
Proof.
  unfold init_last_hash. destruct (last_audio_hash s !! i) eqn:E; simpl.
  - by rewrite E.
  - by rewrite lookup_insert_eq.
Qed.

(** Side conditions of the form [i < length (user_answers _)] after the
    answer list was updated in place. *)
Ltac in_range :=
  simpl; rewrite ?length_insert; try done; congruence.

(** One pass of the loop body for question [i] of a session [s] with an
    answer slot at [i], to which the audio widget delivers [a]. *)
Section Dictation.
Import PyStr PyStrFacts.

Variables (s : session) (i : nat) (a : recording).
Hypothesis Hi : (i < length (user_answers s))%nat.

(** C1 (as the code has it): when the stored text of question [i] strips
    to a non-empty A and a recording with a new digest is transcribed to
    a text that strips to a non-empty B, the loop body leaves "A B B" in
    the answer list and under the text-area key, which is not "A B": the
    merge of the [try] writes "A B", and the statements after the [try]
    merge the same [dictated_text] once more. *)
Theorem dictation_appended_twice (text : string) :
  mjoin (last_audio_hash s !! i) ≠ Some (audio_hash a) →
  whisper a = transcribed text →
  nonempty (existing_text i s) = true →
  nonempty (strip text) = true →
  let o := answer_slot i (Some a) s in
  let stored :=
    join_space (join_space (existing_text i s) (strip text)) (strip text) in
  uncaught o = None ∧
  notices o = [success_dictation_appended] ∧
  calls o = [transcription_request (audio_hash a)] ∧
  user_answers (final o) !! i = Some stored ∧
  ans (final o) !! (question_set_id s, i) = Some stored ∧
  stored ≠ join_space (existing_text i s) (strip text).
Proof.
  intros Hnew Hw HA HB.
  destruct (init_last_hash_frame i s) as (_ & Hua & Hans & Hqid & Hh).
  unfold answer_slot. set (s0 := init_last_hash i s) in *.
  assert (Hex : existing_text i s0 = existing_text i s).
  { unfold existing_text. by rewrite Hans, Hqid. }
  set (m := join_space (existing_text i s) (strip text)).
  set (s1 := set_last_audio_hash
               (<[i := Some (audio_hash a)]> (last_audio_hash s0))
               (set_user_answers (<[i := m]> (user_answers s0))
                  (set_ans (<[(question_set_id s0, i) := m]> (ans s0)) s0))).
  assert (Hd : dictation i a s0
               = (s1, strip text, [success_dictation_appended],
                  [transcription_request (audio_hash a)])).
  { unfold dictation. rewrite decide_False by (by rewrite Hh).
    rewrite Hw, HB. unfold merged_text. rewrite Hex, HA.
    by rewrite store_answer_in_range by in_range. }
  rewrite Hd.
  assert (Hm : merged_text i (strip text) s1 = join_space m (strip text)).
  { unfold merged_text, existing_text. simpl. rewrite lookup_insert_eq. simpl.
    unfold m, existing_text. rewrite strip_join_space by done.
    by rewrite nonempty_join_space. }
  rewrite Hm, store_answer_in_range by in_range.
  simpl. rewrite Hqid. split_and!; [done..| | |].
  - apply list_lookup_insert_eq. in_range.
  - apply lookup_insert_eq.
  - apply app_nonempty_neq. by destruct (strip text).
Qed.

(** C7 (as the code has it): when the recording delivered to question
    [i] has the digest stored for [i], the loop body shows the notice that
    it was already transcribed, sends nothing and keeps the digest; the
    statements after the [try] then merge the empty [dictated_text], so a
    stored text without surrounding white space comes back with a space
    appended and is no longer the text that was stored. *)
Theorem redelivery_appends_space (stored : string) :
  mjoin (last_audio_hash s !! i) = Some (audio_hash a) →
  ans s !! (question_set_id s, i) = Some stored →
  strip stored = stored →
  nonempty stored = true →
  let o := answer_slot i (Some a) s in
  uncaught o = None ∧
  notices o = [info_already_transcribed] ∧
  calls o = [] ∧
  last_audio_hash (final o) !! i = last_audio_hash s !! i ∧
  user_answers (final o) !! i = Some (stored +:+ " ") ∧
  ans (final o) !! (question_set_id s, i) = Some (stored +:+ " ") ∧
  stored +:+ " " ≠ stored.
Proof.
  intros Hsame Hans Hstrip Hne.
  assert (Hinit : init_last_hash i s = s).
  { unfold init_last_hash. by destruct (last_audio_hash s !! i). }
  unfold answer_slot. rewrite Hinit.
  unfold dictation. rewrite decide_True by done.
  assert (Hm : merged_text i "" s = stored +:+ " ").
  { unfold merged_text, existing_text. rewrite Hans. simpl.
    by rewrite Hstrip, Hne. }
  rewrite Hm, store_answer_in_range by done. simpl.
  split_and!; [done..| | |].
  - by apply list_lookup_insert_eq.
  - apply lookup_insert_eq.
  - apply app_space_neq.
Qed.

(** The loop body keeps the question list and the length of the answer
    list, and no exception escapes it. *)
Lemma answer_slot_frame (audio_data : option recording) :
  let o := answer_slot i audio_data s in
  uncaught o = None ∧
  questions (final o) = questions s ∧
  length (user_answers (final o)) = length (user_answers s).
Proof.
  destruct (init_last_hash_frame i s) as (Hq & Hua & _).
  unfold answer_slot. revert Hq Hua.
  generalize (init_last_hash i s). intros s0 Hq Hua.
  assert (Hs1 : ∃ s1 d shown sent,
             match audio_data with
             | Some r => dictation i r s0
             | None => (s0, "", [], [])
             end = (s1, d, shown, sent)
             ∧ questions s1 = questions s
             ∧ length (user_answers s1) = length (user_answers s)).
  { destruct audio_data as [r|]; [|by exists s0, "", [], []; rewrite Hq, Hua].
    unfold dictation.
    destruct (decide _); [by eexists _, _, _, _; rewrite Hq, Hua|].
    destruct (whisper r) as [|text]; [by eexists _, _, _, _; rewrite Hq, Hua|].
    destruct (nonempty (strip text));
      [|by eexists _, _, _, _; rewrite Hq, Hua].
    rewrite store_answer_in_range by in_range.
    eexists _, _, _, _. split; [done|]. simpl.
    by rewrite length_insert, Hq, Hua. }
  destruct Hs1 as (s1 & d & shown & sent & -> & Hq1 & Hl1).
  rewrite store_answer_in_range by in_range.
  simpl. by rewrite length_insert.
Qed.

End Dictation.

(** The merge at stored text "A" and transcript "B". *)
Lemma dictation_appended_twice_witness :
  let o := answer_slot 0 (Some Examples.recording_B) (Examples.answering "A" None) in
  user_answers (final o) !! 0%nat = Some "A B B" ∧
  ans (final o) !! (1, 0%nat) = Some "A B B" ∧
  last_audio_hash (final o) !! 0%nat = Some (Some "digest-1").
Proof.
  destruct (dictation_appended_twice (Examples.answering "A" None) 0
              Examples.recording_B) with (text := "B")
    as (_ & _ & _ & Hua & Hans & _);
    [simpl; lia | by vm_compute | reflexivity | reflexivity | reflexivity |].
  split_and!; [exact Hua | exact Hans | reflexivity].
Defined.

(** The same recording delivered again, in the session the merge left. *)
Lemma redelivery_appends_space_witness :
  let s := Examples.answering "A B B" (Some "digest-1") in
  let o := answer_slot 0 (Some Examples.recording_B) s in
  notices o = [info_already_transcribed] ∧
  user_answers s !! 0%nat = Some "A B B" ∧
  user_answers (final o) !! 0%nat = Some "A B B " ∧
  ans (final o) !! (1, 0%nat) = Some "A B B ".
Proof.
  destruct (redelivery_appends_space
              (Examples.answering "A B B" (Some "digest-1")) 0
              Examples.recording_B) with (stored := "A B B")
    as (_ & Hn & _ & _ & Hua & Hans & _);
    [simpl; lia | reflexivity | reflexivity | reflexivity | reflexivity |].
  split_and!; [exact Hn | reflexivity | exact Hua | exact Hans].
Defined.

(** ** Question generation and the topic ledger *)
Section Generation.

Lemma generated_questions_failed resp :
  generation_failed resp = true →
  generated_questions resp = ([], [error_generation_failed]).
Proof.
  destruct resp as [| |v]; simpl; [done..|].
  by destruct (normalize_items v).
Qed.

(** C2 (amended): a failed generation leaves the session as it was when
    the generation block was entered, except that the block cleared the
    [generate_now] flag: questions, answers, evaluations, the history of
    sets and both counters are untouched, nothing is committed, and the
    failure is shown.  (What the button handler did before the block ran
    is not undone.) *)
Theorem failed_generation_block_keeps_state (num_questions : Z)
    (resp : completion) (now : string) (s : session) :
  generation_failed resp = true →
  let o := generation_block num_questions resp now s in
  final o = set_generate_now false s ∧
  questions (final o) = questions s ∧
  user_answers (final o) = user_answers s ∧
  evaluations (final o) = evaluations s ∧
  all_question_sets (final o) = all_question_sets s ∧
  question_set_id (final o) = question_set_id s ∧
  current_set_id (final o) = current_set_id s ∧
  notices o = [error_generation_failed] ∧
  uncaught o = None.
Proof.
  intros Hfail. unfold generation_block.
  by rewrite (generated_questions_failed _ Hfail).
Qed.

(** The generation block never touches [evaluations]. *)
Lemma generation_block_evaluations num_questions resp now s :
  evaluations (final (generation_block num_questions resp now s))
  = evaluations s.
Proof.
  unfold generation_block.
  by destruct (generated_questions resp) as [[|q qs] shown].
Qed.

(** Every kept entry comes from one element of the parsed list. *)
Lemma normalize_list_length items qs :
  normalize_list items = inr qs → (length qs ≤ length items)%nat.
Proof.
  revert qs. induction items as [|item rest IH]; intros qs; simpl.
  - intros [= <-]. done.
  - destruct (normalize_item item) as [e|o]; simpl; [done|].
    destruct (normalize_list rest) as [e|qs']; simpl; [done|].
    specialize (IH qs' eq_refl).
    destruct o; intros [= <-]; simpl; lia.
Qed.

(** The commit, when the comprehension yields a non-empty list. *)
Lemma generation_block_commit num_questions v now s q qs :
  normalize_items v = inr (q :: qs) →
  let o := generation_block num_questions (parsed v) now s in
  let all_sets := default [] (all_question_sets s) in
  questions (final o) = q :: qs ∧
  user_answers (final o) = replicate (length (q :: qs)) "" ∧
  all_question_sets (final o)
  = Some (all_sets ++
          [mkQuestionSet (length all_sets) (q :: qs)
             (List.filter PyStr.nonempty (map topic (q :: qs))) now]) ∧
  current_set_id (final o) = Some (length all_sets).
Proof.
  intros Hn. unfold generation_block, generated_questions. by rewrite Hn.
Qed.

(** C6 (amended): when the parsed response is a list and a set is
    committed, the committed questions are at most as many as the entries
    of that list, whatever [num_questions] was asked for: the requested
    count goes into the prompt and is not compared with the response. *)
Theorem committed_questions_bounded_by_response (num_questions : Z)
    (items : list json) (now : string) (s : session) (q : Question)
    (qs : list Question) :
  normalize_items (JList items) = inr (q :: qs) →
  let o := generation_block num_questions (parsed (JList items)) now s in
  questions (final o) = q :: qs ∧
  (set_questions <$> last (default [] (all_question_sets (final o))))
  = Some (q :: qs) ∧
  (length (questions (final o)) ≤ length items)%nat.
Proof.
  intros Hn.
  destruct (generation_block_commit num_questions _ now s q qs Hn)
    as (Hq & _ & Hsets & _).
  cbv zeta. rewrite Hq, Hsets. split_and!; [done| |].
  - simpl. by rewrite last_snoc.
  - by apply normalize_list_length.
Qed.

(** The set [used] after the two nested loops of [get_used_topics]. *)
Lemma elem_of_add_topics (ts : list string) (used : gset string) t :
  t ∈ foldl (fun used t => {[ t ]} ∪ used) used ts ↔ t ∈ used ∨ t ∈ ts.
Proof.
  revert used. induction ts as [|t' ts IH]; intros used; simpl.
  - set_solver.
  - rewrite IH. set_solver.
Qed.

Lemma elem_of_used (sets : list QuestionSet) (used : gset string) t :
  t ∈ foldl (fun used st =>
               foldl (fun used t => {[ t ]} ∪ used) used (topics st)) used sets
  ↔ t ∈ used ∨ ∃ st, st ∈ sets ∧ t ∈ topics st.
Proof.
  revert used. induction sets as [|st sets IH]; intros used; simpl.
  - set_solver.
  - rewrite IH, elem_of_add_topics. split.
    + intros [[?|?]|(st' & ? & ?)]; [by left|right..].
      * exists st. set_solver.
      * exists st'. set_solver.
    + intros [?|(st' & [->|?]%elem_of_cons & ?)]; [by left; left|by left; right|].
      right. by exists st'.
Qed.

(** C9: [get_used_topics] returns the topics of all stored sets, each
    once and in ascending order, and it is the only list that does; a
    failed generation attempt from either button, handler included,
    leaves the result as it was, so the topics of a failed attempt never
    appear. *)
Theorem get_used_topics_sorted_union (s : session) (num_questions : Z)
    (resp : completion) (now : string) (uploaded_file : bool) :
  generation_failed resp = true →
  let used_topics := get_used_topics s in
  Sorted String.le used_topics ∧
  NoDup used_topics ∧
  (∀ t, t ∈ used_topics ↔
        ∃ st, st ∈ default [] (all_question_sets s) ∧ t ∈ topics st) ∧
  (∀ l, Sorted String.le l → NoDup l →
        (∀ t, t ∈ l ↔
              ∃ st, st ∈ default [] (all_question_sets s) ∧ t ∈ topics st) →
        l = used_topics) ∧
  get_used_topics (final (generation_block num_questions resp now s))
  = used_topics ∧
  get_used_topics (final (attempt_generate_questions num_questions resp now s))
  = used_topics ∧
  get_used_topics
    (final (attempt_generate_new_set uploaded_file num_questions resp now s))
  = used_topics.
Proof.
  intros Hfail. cbv zeta.
  assert (Hmem : ∀ t, t ∈ get_used_topics s ↔
            ∃ st, st ∈ default [] (all_question_sets s) ∧ t ∈ topics st).
  { intros t. unfold get_used_topics.
    rewrite merge_sort_Permutation, elem_of_elements, elem_of_used.
    set_solver. }
  assert (Hnd : NoDup (get_used_topics s)).
  { unfold get_used_topics. rewrite merge_sort_Permutation.
    apply NoDup_elements. }
  assert (Hsorted : Sorted String.le (get_used_topics s)).
  { apply (Sorted_merge_sort _). }
  assert (Hblock : ∀ s', all_question_sets s' = all_question_sets s →
            get_used_topics
              (final (generation_section uploaded_file num_questions resp now s'))
            = get_used_topics s
            ∧ get_used_topics
                (final (generation_section true num_questions resp now s'))
              = get_used_topics s
            ∧ get_used_topics (final (generation_block num_questions resp now s'))
              = get_used_topics s).
  { intros s' Hs'. unfold generation_section.
    assert (get_used_topics (final (generation_block num_questions resp now s'))
            = get_used_topics s) as Hb.
    { unfold generation_block.
      rewrite (generated_questions_failed _ Hfail). simpl.
      unfold get_used_topics. simpl. by rewrite Hs'. }
    assert (get_used_topics s' = get_used_topics s) as Hid.
    { unfold get_used_topics. by rewrite Hs'. }
    split_and!; [| |done].
    - by destruct (uploaded_file && generate_now s').
    - by destruct (true && generate_now s'). }
  split_and!; [done..| | | |].
  - intros l Hl Hndl Hmeml.
    apply (Sorted_unique String.le); [done..|].
    apply NoDup_Permutation; [done..|].
    intros t. by rewrite Hmeml, Hmem.
  - by apply Hblock.
  - unfold attempt_generate_questions, click_generate_questions.
    destruct (PyStr.nonempty (pdf_text s)); unfold and_then; simpl;
      by apply Hblock.
  - unfold attempt_generate_new_set, click_generate_new_set, and_then. simpl.
    by apply Hblock.
Qed.

Lemma failed_generation_block_keeps_state_witness :
  let s := set_generate_now true Examples.evaluated in
  final (generation_block 3 service_error "2024-05-01 11:00:00" s)
  = Examples.evaluated.
Proof.
  destruct (failed_generation_block_keeps_state 3 service_error
              "2024-05-01 11:00:00" (set_generate_now true Examples.evaluated)
              eq_refl) as (H & _).
  exact H.
Defined.

(** C2 (counterexample): the completion service fails after the
    "Generate a New Set of Questions" button was clicked in a session
    with a question, an answer and an evaluation.  After the attempt the
    questions, answers and evaluations are gone and the round counter went
    from 1 to 2; from the "Generate Questions" button the counter moves
    as well. *)
Lemma failed_attempt_changes_state :
  let s := Examples.evaluated in
  let o := attempt_generate_new_set true 3 service_error "2024-05-01 11:00:00" s in
  let o' := attempt_generate_questions 3 service_error "2024-05-01 11:00:00" s in
  generation_failed service_error = true ∧
  questions s = [Examples.airway] ∧ questions (final o) = [] ∧
  user_answers s = ["Intubate"] ∧ user_answers (final o) = [] ∧
  evaluations s = JList [Examples.evaluation 9] ∧ evaluations (final o) = JList [] ∧
  question_set_id s = 1 ∧ question_set_id (final o) = 2 ∧
  question_set_id (final o') = 2.
Proof. by vm_compute. Qed.

(** C3 (as the code has it): a generation started with the "Generate
    Questions" button never changes [evaluations].  In a session whose
    one answer was evaluated, a successful generation of two questions
    commits the new set and resets the answers to two empty strings,
    and the evaluation of the previous set is still in the session. *)
Theorem generate_questions_keeps_evaluations :
  (∀ num_questions resp now s,
     evaluations (final (attempt_generate_questions num_questions resp now s))
     = evaluations s) ∧
  let o := attempt_generate_questions 2 (parsed Examples.two_items)
             "2024-05-01 11:00:00" Examples.evaluated in
  notices o = [success_generated 2] ∧
  length (questions (final o)) = 2%nat ∧
  current_set_id (final o) = Some 1%nat ∧
  user_answers (final o) = [""; ""] ∧
  evaluations (final o) = JList [Examples.evaluation 9].
Proof.
  split; [|by vm_compute].
  intros num_questions resp now s.
  unfold attempt_generate_questions, click_generate_questions,
    generation_section, and_then.
  destruct (PyStr.nonempty (pdf_text s)); simpl.
  - by rewrite generation_block_evaluations.
  - destruct (generate_now s); simpl; [|done].
    by rewrite generation_block_evaluations.
Qed.

Lemma committed_questions_bounded_by_response_witness :
  let o := generation_block 1 (parsed Examples.two_items) "2024-05-01 11:00:00"
             (set_generate_now true Examples.evaluated) in
  (length (questions (final o)) ≤ 2)%nat.
Proof.
  destruct (committed_questions_bounded_by_response 1
              [Examples.item "Esophagus" "How is a perforation managed?" "Drain and repair";
               Examples.item "Pleura" "How is an empyema staged?" "Three stages"]
              "2024-05-01 11:00:00" (set_generate_now true Examples.evaluated)
              (mkQuestion "Esophagus" "How is a perforation managed?" "Drain and repair")
              [mkQuestion "Pleura" "How is an empyema staged?" "Three stages"]
              eq_refl) as (_ & _ & H).
  exact H.
Defined.

(** C6 (counterexample): one question is requested and the service
    answers a well-formed list of two entries; both are committed. *)
Lemma more_questions_than_requested :
  let o := generation_block 1 (parsed Examples.two_items) "2024-05-01 11:00:00"
             (set_generate_now true Examples.evaluated) in
  calls o = [generation_request 1 ["Airway trauma"] "Thoracic surgery manual"] ∧
  length (questions (final o)) = 2%nat ∧
  ¬ (Z.of_nat (length (questions (final o))) ≤ 1).
Proof. vm_compute. split_and!; [done..|]. intros H. by apply H. Qed.

(** What the comprehension keeps of a one-entry response with string
    fields. *)
Lemma normalize_single_item t q k :
  PyStr.nonempty q = true → PyStr.nonempty k = true →
  normalize_items (JList [Examples.item t q k])
  = inr [mkQuestion (PyStr.strip t) (PyStr.strip q) (PyStr.strip k)].
Proof.
  intros Hq Hk. unfold normalize_items, Examples.item. simpl.
  unfold normalize_item. simpl. by rewrite Hq, Hk.
Qed.

(** C8 (as the code has it): the filter of the comprehension tests the
    raw values and the kept entry holds the stripped ones, so an entry
    whose question is white space only passes the filter and is committed,
    in the active list and in the history, with an empty question. *)
Theorem blank_question_is_committed (num_questions : Z) (t q k now : string)
    (s : session) :
  PyStr.nonempty q = true → PyStr.strip q = "" → PyStr.nonempty k = true →
  let o := generation_block num_questions
             (parsed (JList [Examples.item t q k])) now s in
  let committed := [mkQuestion (PyStr.strip t) "" (PyStr.strip k)] in
  notices o = [success_generated 1] ∧
  questions (final o) = committed ∧
  (set_questions <$> last (default [] (all_question_sets (final o))))
  = Some committed ∧
  Forall (λ x, question x = "") (questions (final o)).
Proof.
  intros Hq Hblank Hk.
  pose proof (normalize_single_item t q k Hq Hk) as Hn. rewrite Hblank in Hn.
  destruct (generation_block_commit num_questions _ now s _ _ Hn)
    as (Hqs & _ & Hsets & _).
  cbv zeta. rewrite Hqs, Hsets. split_and!; [|done| |by repeat constructor].
  - unfold generation_block, generated_questions. by rewrite Hn.
  - simpl. by rewrite last_snoc.
Qed.

(** The response whose only entry has the question " ". *)
Lemma blank_question_is_committed_witness :
  let o := generation_block 1 (parsed Examples.blank_question)
             "2024-05-01 11:00:00" (set_generate_now true Examples.evaluated) in
  questions (final o) = [mkQuestion "Pleura" "" "Three stages"].
Proof.
  destruct (blank_question_is_committed 1 "Pleura" " " "Three stages"
              "2024-05-01 11:00:00" (set_generate_now true Examples.evaluated))
    as (_ & H & _); [reflexivity..|].
  exact H.
Defined.

Lemma get_used_topics_sorted_union_witness :
  let s := Examples.two_rounds in
  get_used_topics s = ["Airway"; "Esophagus"; "Trauma"] ∧
  get_used_topics
    (final (attempt_generate_new_set true 3 unparseable "2024-05-01 11:00:00" s))
  = get_used_topics s.
Proof.
  destruct (get_used_topics_sorted_union Examples.two_rounds 3 unparseable
              "2024-05-01 11:00:00" true eq_refl) as (_ & _ & _ & _ & _ & _ & H).
  split; [by vm_compute | exact H].
Defined.

End Generation.

(** ** Evaluation *)
Section Evaluation.

Lemma grading_items_length questions user_answers :
  length (grading_items questions user_answers)
  = (length questions `min` length user_answers)%nat.
Proof.
  revert user_answers.
  induction questions as [|q qs IH]; intros [|a ans]; simpl; auto.
Qed.

Lemma answers_loop_frame audio (n : nat) (qs : list Question) (l : list nat)
    (o : outcome) :
  Forall (λ i, i < n)%nat l →
  uncaught o = None ∧ questions (final o) = qs
    ∧ length (user_answers (final o)) = n →
  let o' := foldl (fun o i => and_then o (answer_slot i (audio i))) o l in
  uncaught o' = None ∧ questions (final o') = qs
    ∧ length (user_answers (final o')) = n.
Proof.
  intros Hl. revert o. induction Hl as [|i l Hi Hl IH]; intros o Ho; [done|].
  simpl. apply IH. destruct Ho as (Hu & Hq & Hlen).
  unfold and_then. rewrite Hu. simpl.
  destruct (answer_slot_frame (final o) i) with (audio_data := audio i)
    as (? & ? & ?); [by rewrite Hlen|].
  split_and!; congruence.
Qed.

(** After the answers block there is one answer per question. *)
Lemma answers_block_aligned audio s :
  questions s ≠ [] →
  let o := answers_block audio s in
  uncaught o = None ∧ questions (final o) = questions s
    ∧ length (user_answers (final o)) = length (questions s).
Proof.
  intros Hne. unfold answers_block.
  destruct (questions s) as [|q qs] eqn:Hqs; [done|].
  rewrite <- Hqs.
  set (s' := if decide (length (user_answers s) ≠ length (questions s))
             then set_user_answers (replicate (length (questions s)) "") s
             else s).
  assert (Hs' : questions s' = questions s
                ∧ length (user_answers s') = length (questions s)).
  { unfold s'. destruct (decide _) as [Hd|Hd]; simpl.
    - by rewrite length_replicate.
    - split; [done|].
      by destruct (decide (length (user_answers s) = length (questions s))). }
  destruct Hs' as [Hq' Hl']. rewrite Hq'.
  apply answers_loop_frame.
  - apply Forall_forall. intros i Hi%elem_of_seq. lia.
  - done.
Qed.

(** C4 (amended): [score_short_answers] compares no lengths.  For any two
    lists it sends exactly one grading request, with one entry per pair
    of [zip(questions, user_answers)], that is as many as the shorter
    list has, and returns what the service answered.  At the Evaluate
    button the lists have the same length, because the answers block
    before it resets the answer list whenever the lengths differ. *)
Theorem score_short_answers_sends_zipped_request (audio : nat → option recording)
    (resp : completion) (s : session) :
  questions s ≠ [] →
  (∀ user_answers questions results,
     score_short_answers user_answers questions (parsed results)
     = (results, [], [grading_request (grading_items questions user_answers)])
     ∧ length (grading_items questions user_answers)
       = (length questions `min` length user_answers)%nat) ∧
  let o := run_evaluate audio resp s in
  ∃ items, last (calls o) = Some (grading_request items)
           ∧ length items = length (questions s).
Proof.
  intros Hne. split.
  { intros ua qs results. split; [done|apply grading_items_length]. }
  destruct (answers_block_aligned audio s Hne) as (Hu & Hq & Hlen).
  unfold run_evaluate. destruct (questions s) as [|q qs] eqn:Hqs; [done|].
  rewrite <- Hqs in *. unfold and_then. rewrite Hu. cbv zeta.
  set (s1 := final (answers_block audio s)) in *.
  exists (grading_items (questions s1) (user_answers s1)). split.
  - unfold click_evaluate, score_short_answers.
    destruct resp as [| |results]; simpl; try by rewrite last_snoc.
    destruct (Json.truthy results); simpl; [|by rewrite last_snoc].
    destruct (aggregate results) as [e|[[t m] pct]]; simpl; by rewrite last_snoc.
  - rewrite grading_items_length, Hq, Hlen. lia.
Qed.

(** Which exceptions the parts of [aggregate] can raise. *)
Lemma finite_or_overflow_exn x e :
  PyFloat.finite_or_overflow x = inl e → e = OverflowError.
Proof. destruct x; simpl; congruence. Qed.

Lemma sum_scores_exn results total e :
  sum_scores total results = inl e → e = AttributeError ∨ e = TypeError.
Proof.
  revert total. induction results as [|r rest IH]; intros total; simpl; [done|].
  unfold add_score, Json.get.
  destruct r as [| | | | |d]; simpl; try (intros [= <-]; by left).
  destruct (default (JInt 0) (Json.assoc "score" d)); simpl;
    try (intros [= <-]; by right); apply IH.
Qed.

Lemma int_truediv_exn a b e :
  b ≠ 0 → PyFloat.int_truediv a b = inl e → e = OverflowError.
Proof.
  intros Hb. unfold PyFloat.int_truediv.
  destruct (Z.eqb_spec b 0) as [|_]; [done|]. apply finite_or_overflow_exn.
Qed.

Lemma mul_int_exn x n e : PyFloat.mul_int x n = inl e → e = OverflowError.
Proof.
  unfold PyFloat.mul_int, PyFloat.of_int.
  destruct (PyFloat.finite_or_overflow _) as [e'|y] eqn:Hy; [|done].
  intros [= <-]. by eapply finite_or_overflow_exn.
Qed.

Lemma round_exn x ndigits e :
  PyFloat.round x ndigits = inl e → e = OverflowError.
Proof.
  unfold PyFloat.round. destruct x; try done. apply finite_or_overflow_exn.
Qed.

Lemma percentage_exn total_score max_score e :
  max_score ≠ 0 → percentage total_score max_score = inl e → e = OverflowError.
Proof.
  intros Hmax. unfold percentage.
  destruct (PyFloat.int_truediv total_score max_score) as [e1|q] eqn:Hq.
  { intros [= <-]. by eapply int_truediv_exn. }
  destruct (PyFloat.mul_int q 100) as [e2|p] eqn:Hp.
  { unfold mbind, exn_bind. rewrite Hp. intros [= <-]. by eapply mul_int_exn. }
  unfold mbind, exn_bind. rewrite Hp. apply round_exn.
Qed.

Lemma len_truthy v n : len v = inr n → Json.truthy v = true → n ≠ 0.
Proof.
  destruct v as [| | |str|l|d]; simpl; try done.
  - destruct str; [done|]. intros [= <-] _. simpl. lia.
  - destruct l; [done|]. intros [= <-] _. simpl. lia.
  - destruct d; [done|]. intros [= <-] _. simpl. lia.
Qed.

Lemma aggregate_exn results e :
  Json.truthy results = true → aggregate results = inl e →
  e ≠ ZeroDivisionError.
Proof.
  intros Ht. unfold aggregate.
  destruct (Json.iterate results) as [e0|items] eqn:Hit; simpl.
  { destruct results; simpl in Hit; congruence. }
  destruct (sum_scores 0 items) as [e1|total] eqn:Hsum; simpl.
  { intros [= <-]. destruct (sum_scores_exn _ _ _ Hsum); congruence. }
  destruct (len results) as [e2|n] eqn:Hlen; simpl.
  { destruct results; try done; cbv [len mret exn_ret] in Hlen; done. }
  destruct (percentage total (n * 10)) as [e3|pct] eqn:Hp; simpl; [|done].
  intros [= <-].
  assert (n ≠ 0) by (by eapply len_truthy).
  rewrite (percentage_exn total (n * 10) e3); [done|lia|done].
Qed.

(** C5 (amended): the percentage is divided only under [if results], and
    there [max_score] is not zero, so whatever the service answers
    neither the handler nor the run around it stops with a division by
    zero.  When [results] is empty the handler stores it and shows no
    score line; it shows nothing at all when the service answered an
    empty list, and the scoring failure when the call or the parse
    failed.  No notice says that there was nothing to evaluate: with no
    question the button is not rendered and the run does nothing, and
    the function itself sends its request also for two empty lists. *)
Theorem evaluate_never_divides_by_zero (audio : nat → option recording)
    (resp : completion) (s : session) :
  uncaught (click_evaluate resp s) ≠ Some ZeroDivisionError ∧
  uncaught (run_evaluate audio resp s) ≠ Some ZeroDivisionError ∧
  click_evaluate (parsed (JList [])) s
  = mkOutcome (set_evaluations (JList []) s) []
      [grading_request (grading_items (questions s) (user_answers s))] None ∧
  click_evaluate service_error s
  = mkOutcome (set_evaluations (JList []) s) [error_scoring_failed]
      [grading_request (grading_items (questions s) (user_answers s))] None ∧
  click_evaluate unparseable s = click_evaluate service_error s ∧
  run_evaluate audio resp (set_questions_key [] s) = ok (set_questions_key [] s) ∧
  score_short_answers [] [] resp
  = (match resp with parsed results => results | _ => JList [] end,
     match resp with parsed _ => [] | _ => [error_scoring_failed] end,
     [grading_request []]).
Proof.
  assert (Hclick : ∀ s', uncaught (click_evaluate resp s') ≠ Some ZeroDivisionError).
  { intros s'. unfold click_evaluate, score_short_answers.
    destruct resp as [| |results]; simpl; [done..|].
    destruct (Json.truthy results) eqn:Ht; [|done].
    destruct (aggregate results) as [e|[[t m] pct]] eqn:Ha; simpl; [|done].
    intros [= ->]. by eapply aggregate_exn. }
  split_and!; [done| |done..|by destruct resp].
  unfold run_evaluate. destruct (questions s) as [|q qs] eqn:Hqs; [done|].
  destruct (answers_block_aligned audio s) as (Hu & _); [by rewrite Hqs|].
  unfold and_then. rewrite Hu. simpl. apply Hclick.
Qed.

(** The running total of [sum] over evaluations with integer scores. *)
Lemma sum_scores_integers results scores total :
  Forall2 (λ r n, Json.get r "score" (JInt 0) = inr (JInt n)) results scores →
  sum_scores total results = inr (total + foldr Z.add 0 scores).
Proof.
  intros H. revert total.
  induction H as [|r n results scores Hr _ IH]; intros total; simpl.
  - f_equal. lia.
  - unfold add_score. rewrite Hr. simpl. rewrite IH. f_equal. lia.
Qed.

(** C10 (amended): for a non-empty list of evaluations whose scores are
    integers, [total_score] is the sum of the scores, [max_score] is ten
    times the number of evaluations, and the percentage is
    [round(total_score / max_score * 100, 1)] in double arithmetic, the
    division first and the multiplication by 100 after it.  The scores
    9, 6 and 10 give 25 of 30 and 83.3 percent. *)
Theorem aggregate_of_integer_scores (results : list json) (scores : list Z) :
  results ≠ [] →
  Forall2 (λ r n, Json.get r "score" (JInt 0) = inr (JInt n)) results scores →
  let total_score := foldr Z.add 0 scores in
  let max_score := 10 * Z.of_nat (length results) in
  max_score ≠ 0 ∧
  aggregate (JList results)
  = (q ← PyFloat.int_truediv total_score max_score;
     p ← PyFloat.mul_int q 100;
     pct ← PyFloat.round p 1;
     mret (total_score, max_score, pct)) ∧
  aggregate (JList (Examples.evaluation <$> [9; 6; 10]))
  = inr (25, 30, PyFloat.of_decimal false 833 1).
Proof.
  intros Hne Hscores. cbv zeta. split_and!; [| |by vm_compute].
  { destruct results; [done|]. simpl. lia. }
  unfold aggregate. simpl.
  rewrite (sum_scores_integers _ _ _ Hscores). simpl.
  rewrite (Z.mul_comm (Z.of_nat _) 10). unfold percentage.
  destruct (PyFloat.int_truediv _ _) as [e|q]; simpl; [done|].
  destruct (PyFloat.mul_int q 100) as [e|p']; simpl; [done|].
  by destruct (PyFloat.round p' 1).
Qed.

Lemma score_short_answers_sends_zipped_request_witness :
  let o := run_evaluate (λ _, None) (parsed (JList [Examples.evaluation 9]))
             Examples.evaluated in
  ∃ items, last (calls o) = Some (grading_request items) ∧ length items = 1%nat.
Proof.
  destruct (score_short_answers_sends_zipped_request (λ _, None)
              (parsed (JList [Examples.evaluation 9])) Examples.evaluated)
    as (_ & items & Hlast & Hlen); [by vm_compute|].
  exists items. split; [exact Hlast | exact Hlen].
Defined.

(** C4 (counterexample): three questions and two answers.  The function
    reports no failure: it sends the grading request with the two zipped
    pairs and returns the two evaluations the service answered. *)
Lemma mismatched_lengths_are_graded :
  let answered := JList [Examples.evaluation 9; Examples.evaluation 6] in
  length Examples.three_questions = 3%nat ∧
  score_short_answers ["Intubate"; "Drain"] Examples.three_questions
    (parsed answered)
  = (answered, [],
     [grading_request
        [mkGradingItem "What is the best treatment?" "Secure the airway" "Intubate";
         mkGradingItem "Q2" "K2" "Drain"]]).
Proof. by vm_compute. Qed.

(** C5 (counterexample): the service answers an empty list.  The handler
    stores it and shows no notice at all: nothing reports that there was
    nothing to evaluate.  With no question and no answer the function
    still sends its request and returns what the service answered. *)
Lemma empty_evaluation_reports_nothing :
  let o := click_evaluate (parsed (JList [])) Examples.evaluated in
  notices o = [] ∧ uncaught o = None ∧ evaluations (final o) = JList [] ∧
  score_short_answers [] [] (parsed (JList [Examples.evaluation 9]))
  = (JList [Examples.evaluation 9], [], [grading_request []]).
Proof. by vm_compute. Qed.

(** The aggregate of two evaluations with the scores 7 and 8: 15 of 20,
    75.0 percent. *)
Lemma aggregate_of_integer_scores_witness :
  aggregate (JList (Examples.evaluation <$> [7; 8]))
  = inr (15, 20, PyFloat.of_decimal false 750 1).
Proof.
  destruct (aggregate_of_integer_scores (Examples.evaluation <$> [7; 8]) [7; 8])
    as (_ & H & _); [done | by repeat constructor |].
  etrans; [exact H|]. by vm_compute.
Defined.

(** C10 (counterexample): eight evaluations whose scores add up to 23.
    The script shows 28.7 percent: 23 / 80 is the double just below
    0.2875, and its product with 100 is the double just below 28.75.
    The formula [round(100 * total / max, 1)] gives 28.8: 2300 / 80 is
    28.75 exactly, which rounds half to even to 28.8. *)
Lemma percentage_differs_from_spec_formula :
  let results := JList (Examples.evaluation <$> [3; 3; 3; 3; 3; 3; 3; 2]) in
  aggregate results = inr (23, 80, PyFloat.of_decimal false 287 1) ∧
  spec_percentage 23 80 = inr (PyFloat.of_decimal false 288 1) ∧
  PyFloat.div_half_even (1000 * 23) 80 = 288 ∧
  percentage 23 80 ≠ spec_percentage 23 80.
Proof. by vm_compute. Qed.

End Evaluation.

(** ** The answers loop across runs *)
Section AnswersLoop.
Import PyStr PyStrFacts.

Lemma merged_text_init i d s :
  merged_text i d (init_last_hash i s) = merged_text i d s.
Proof.
  destruct (init_last_hash_frame i s) as (_ & _ & Hans & Hqid & _).
  unfold merged_text, existing_text. by rewrite Hans, Hqid.
Qed.

(** The loop body when nothing is dictated: the key of the digest is
    created and the text area's stripped content is written back. *)
Lemma answer_slot_none i s :
  (i < length (user_answers s))%nat →
  answer_slot i None s
  = mkOutcome
      (set_user_answers (<[i := merged_text i "" s]> (user_answers s))
         (set_ans (<[(question_set_id s, i) := merged_text i "" s]> (ans s))
            (init_last_hash i s))) [] [] None.
Proof.
  intros Hi.
  destruct (init_last_hash_frame i s) as (_ & Hua & Hans & Hqid & _).
  unfold answer_slot. rewrite merged_text_init.
  rewrite store_answer_in_range by in_range.
  simpl. by rewrite Hua, Hans, Hqid.
Qed.

(** The four ways the [try] ends without a merge leave the session and
    [dictated_text] as they were. *)
Lemma dictation_guarded i a s :
  mjoin (last_audio_hash s !! i) = Some (audio_hash a) →
  dictation i a s = (s, "", [info_already_transcribed], []).
Proof. intros Hg. unfold dictation. by rewrite decide_True. Qed.

Lemma dictation_failed i a s :
  mjoin (last_audio_hash s !! i) ≠ Some (audio_hash a) →
  whisper a = transcription_failed →
  dictation i a s
  = (s, "", [error_transcription_failed], [transcription_request (audio_hash a)]).
Proof. intros Hg Hw. unfold dictation. by rewrite decide_False, Hw. Qed.

Lemma nonempty_false x : nonempty x = false → x = "".
Proof. by destruct x. Qed.

Lemma dictation_blank i a text s :
  mjoin (last_audio_hash s !! i) ≠ Some (audio_hash a) →
  whisper a = transcribed text → strip text = "" →
  dictation i a s
  = (s, "", [warning_empty_transcription], [transcription_request (audio_hash a)]).
Proof.
  intros Hg Hw Hb. unfold dictation. by rewrite decide_False, Hw, Hb.
Qed.

(** Every way of the [try] that is not the guard sends the recording. *)
Lemma dictation_sends i a s :
  mjoin (last_audio_hash s !! i) ≠ Some (audio_hash a) →
  (dictation i a s).2 = [transcription_request (audio_hash a)].
Proof.
  intros Hg. unfold dictation. rewrite decide_False by done.
  destruct (whisper a) as [|text]; [done|].
  destruct (nonempty (strip text)); [|done].
  by destruct (store_answer _ _ _).
Qed.

Lemma answer_slot_calls i a s :
  calls (answer_slot i (Some a) s) = (dictation i a (init_last_hash i s)).2.
Proof.
  unfold answer_slot.
  destruct (dictation i a (init_last_hash i s)) as [[[s1 d] shown] sent].
  by destruct (store_answer _ _ _).
Qed.

Lemma answer_slot_none_hash i s :
  last_audio_hash (final (answer_slot i None s))
  = last_audio_hash (init_last_hash i s).
Proof.
  unfold answer_slot, store_answer. simpl.
  by destruct (decide _).
Qed.

(** The loop body with a recording that is not merged, against the loop
    body without a recording. *)
Lemma answer_slot_guarded i a s :
  mjoin (last_audio_hash s !! i) = Some (audio_hash a) →
  answer_slot i (Some a) s
  = mkOutcome (final (answer_slot i None s)) [info_already_transcribed] []
      (uncaught (answer_slot i None s)).
Proof.
  intros Hg.
  destruct (init_last_hash_frame i s) as (_ & _ & _ & _ & Hh).
  unfold answer_slot. rewrite dictation_guarded by (by rewrite Hh).
  by destruct (store_answer _ _ _).
Qed.

Lemma answer_slot_unmerged i a s :
  mjoin (last_audio_hash s !! i) ≠ Some (audio_hash a) →
  (whisper a = transcription_failed
   ∨ ∃ text, whisper a = transcribed text ∧ strip text = "") →
  answer_slot i (Some a) s
  = mkOutcome (final (answer_slot i None s))
      match whisper a with
      | transcription_failed => [error_transcription_failed]
      | transcribed _ => [warning_empty_transcription]
      end
      [transcription_request (audio_hash a)]
      (uncaught (answer_slot i None s)).
Proof.
  intros Hg Hw.
  destruct (init_last_hash_frame i s) as (_ & _ & _ & _ & Hh).
  assert (Hg0 : mjoin (last_audio_hash (init_last_hash i s) !! i)
                ≠ Some (audio_hash a)) by (by rewrite Hh).
  unfold answer_slot.
  destruct Hw as [Hw|(text & Hw & Hb)]; rewrite Hw.
  - rewrite dictation_failed by done. by destruct (store_answer _ _ _).
  - rewrite (dictation_blank _ _ text) by done. by destruct (store_answer _ _ _).
Qed.

Lemma init_last_hash_insert i s :
  init_last_hash i s
  = set_last_audio_hash
      (<[i := default None (last_audio_hash s !! i)]> (last_audio_hash s)) s.
Proof.
  unfold init_last_hash. destruct (last_audio_hash s !! i) as [h|] eqn:E; simpl.
  - rewrite insert_id by done. by destruct s.
  - done.
Qed.

(** What the loop body writes: one value under the answer list's index
    and the text-area key, and the digest key of the same question. *)
Lemma answer_slot_effect i audio_data s :
  (i < length (user_answers s))%nat →
  ∃ v h,
    uncaught (answer_slot i audio_data s) = None ∧
    final (answer_slot i audio_data s)
    = set_user_answers (<[i := v]> (user_answers s))
        (set_ans (<[(question_set_id s, i) := v]> (ans s))
           (set_last_audio_hash (<[i := h]> (last_audio_hash s)) s)).
Proof.
  intros Hi.
  assert (Hnone : ∃ v h,
            uncaught (answer_slot i None s) = None ∧
            final (answer_slot i None s)
            = set_user_answers (<[i := v]> (user_answers s))
                (set_ans (<[(question_set_id s, i) := v]> (ans s))
                   (set_last_audio_hash (<[i := h]> (last_audio_hash s)) s))).
  { exists (merged_text i "" s), (default None (last_audio_hash s !! i)).
    rewrite answer_slot_none by done. simpl. by rewrite init_last_hash_insert. }
  destruct audio_data as [a|]; [|done].
  destruct (decide (mjoin (last_audio_hash s !! i) = Some (audio_hash a)))
    as [Hg|Hg].
  { by rewrite answer_slot_guarded. }
  destruct (whisper a) as [|text] eqn:Hw.
  { rewrite answer_slot_unmerged; [done..|by left]. }
  destruct (nonempty (strip text)) eqn:Hne.
  2:{ rewrite answer_slot_unmerged; [done..|].
      right. exists text. split; [done|]. by apply nonempty_false. }
  destruct (init_last_hash_frame i s) as (_ & Hua & Hans & Hqid & Hh).
  unfold answer_slot. set (s0 := init_last_hash i s) in *.
  set (m := merged_text i (strip text) s0).
  set (s1 := set_last_audio_hash
               (<[i := Some (audio_hash a)]> (last_audio_hash s0))
               (set_user_answers (<[i := m]> (user_answers s0))
                  (set_ans (<[(question_set_id s0, i) := m]> (ans s0)) s0))).
  assert (Hd : dictation i a s0
               = (s1, strip text, [success_dictation_appended],
                  [transcription_request (audio_hash a)])).
  { unfold dictation. rewrite decide_False by (by rewrite Hh).
    rewrite Hw, Hne. by rewrite store_answer_in_range by in_range. }
  rewrite Hd. set (v := merged_text i (strip text) s1).
  rewrite store_answer_in_range by in_range.
  exists v, (Some (audio_hash a)). split; [done|].
  clearbody v m. unfold s1, s0. rewrite init_last_hash_insert.
  destruct s. simpl.
  by rewrite !insert_insert_eq, list_insert_insert_eq.
Qed.

Lemma merged_text_ext i d s s' :
  question_set_id s' = question_set_id s →
  ans s' !! (question_set_id s, i) = ans s !! (question_set_id s, i) →
  merged_text i d s' = merged_text i d s.
Proof.
  intros Hq Ha. unfold merged_text, existing_text. by rewrite Hq, Ha.
Qed.

(** The session after the first [m] passes of the loop, from a session
    with [n] answers. *)
Lemma answers_prefix audio s n m :
  length (user_answers s) = n → (m ≤ n)%nat →
  let o := foldl (fun o i => and_then o (answer_slot i (audio i)))
             (ok s) (seq 0 m) in
  uncaught o = None ∧ same_round s (final o) ∧
  length (user_answers (final o)) = n ∧
  (∀ j, (j < m)%nat →
     ∃ v, user_answers (final o) !! j = Some v
          ∧ ans (final o) !! (question_set_id s, j) = Some v
          ∧ is_Some (last_audio_hash (final o) !! j)
          ∧ ((∀ a, audio j = Some a →
                   mjoin (last_audio_hash s !! j) = Some (audio_hash a)) →
             v = merged_text j "" s
             ∧ mjoin (last_audio_hash (final o) !! j)
               = mjoin (last_audio_hash s !! j))) ∧
  (∀ j, (m ≤ j)%nat →
     user_answers (final o) !! j = user_answers s !! j
     ∧ last_audio_hash (final o) !! j = last_audio_hash s !! j) ∧
  (∀ key, (∀ j, (j < m)%nat → key ≠ (question_set_id s, j)) →
     ans (final o) !! key = ans s !! key) ∧
  ((∀ j a, (j < m)%nat → audio j = Some a →
           mjoin (last_audio_hash s !! j) = Some (audio_hash a)) →
   calls o = []).
Proof.
  intros Hn. induction m as [|m IH]; intros Hm.
  { simpl. split_and!; [done|by repeat split|done|intros; lia|done|done|done]. }
  rewrite seq_S, foldl_snoc. simpl.
  destruct IH as (Hu & Hsame & Hlen & Hdone & Hrest & Hkeys & Hcalls); [lia|].
  set (o := foldl _ _ _) in *. unfold and_then. rewrite Hu.
  remember (final o) as sm eqn:Hsm. clear Hsm.
  destruct Hsame as (Hqid & Hq & Hev & Hmo & Hcur & Hgen & Hpdf & Hsets).
  assert (Hmlt : (m < length (user_answers sm))%nat) by lia.
  destruct (answer_slot_effect m (audio m) sm Hmlt) as (v & h & Hun & Hfin).
  cbv zeta. simpl. rewrite Hun, Hfin. simpl.
  split_and!; [done|by repeat split|by rewrite length_insert| | | |].
  - intros j Hj. destruct (decide (j = m)) as [->|Hne].
    + exists v. rewrite Hqid.
      split_and!; [by apply list_lookup_insert_eq|apply lookup_insert_eq| |].
      * rewrite lookup_insert_eq. by eexists.
      * intros Hquiet.
        destruct (Hrest m (Nat.le_refl _)) as (_ & Hhm).
        assert (Hguard : ∀ a, audio m = Some a →
                  mjoin (last_audio_hash sm !! m) = Some (audio_hash a)).
        { intros a Ha. rewrite Hhm. by apply Hquiet. }
        assert (Hnone : final (answer_slot m (audio m) sm)
                        = final (answer_slot m None sm)).
        { destruct (audio m) as [a|]; [|done].
          by rewrite answer_slot_guarded by auto. }
        rewrite Hfin, answer_slot_none in Hnone by done. simpl in Hnone.
        assert (Hv : v = merged_text m "" sm).
        { apply (f_equal user_answers) in Hnone. simpl in Hnone.
          apply (f_equal (λ l, l !! m)) in Hnone.
          rewrite !list_lookup_insert_eq in Hnone by done. congruence. }
        assert (Hh : mjoin (Some h) = mjoin (last_audio_hash sm !! m)).
        { apply (f_equal last_audio_hash) in Hnone. simpl in Hnone.
          apply (f_equal (λ x, x !! m)) in Hnone.
          rewrite lookup_insert_eq in Hnone. rewrite Hnone.
          by destruct (init_last_hash_frame m sm) as (_ & _ & _ & _ & ->). }
        rewrite lookup_insert_eq, Hh, Hhm. split; [|done].
        rewrite Hv. apply merged_text_ext; [done|].
        apply Hkeys. intros j Hj'. intros [= ->]. lia.
    + destruct (Hdone j) as (vj & Hua & Hans & Hhash & Hq'); [lia|].
      exists vj. rewrite list_lookup_insert_ne by done.
      rewrite !lookup_insert_ne by (rewrite ?Hqid; congruence).
      done.
  - intros j Hj. destruct (Hrest j) as (Hua & Hh); [lia|].
    rewrite list_lookup_insert_ne, lookup_insert_ne by lia. done.
  - intros key Hkey. rewrite lookup_insert_ne.
    + apply Hkeys. intros j Hj. apply Hkey. lia.
    + rewrite Hqid. intros <-. by apply (Hkey m); [lia|].
  - intros Hquiet. rewrite Hcalls by (intros j a ?; apply Hquiet; lia).
    destruct (Hrest m (Nat.le_refl _)) as (_ & Hhm).
    destruct (audio m) as [a|] eqn:Ha.
    + rewrite answer_slot_guarded; [done|].
      rewrite Hhm. by apply Hquiet; [lia|].
    + by rewrite answer_slot_none.
Qed.

(** The answers block is the loop from the session its length check
    leaves, in which the answers are as many as the questions. *)
Lemma answers_block_loop audio s :
  questions s ≠ [] →
  ∃ s0, answers_block audio s
        = foldl (fun o i => and_then o (answer_slot i (audio i)))
            (ok s0) (seq 0 (length (questions s)))
        ∧ length (user_answers s0) = length (questions s)
        ∧ same_round s s0 ∧ ans s0 = ans s
        ∧ last_audio_hash s0 = last_audio_hash s
        ∧ (length (user_answers s) = length (questions s) → s0 = s).
Proof.
  intros Hne. unfold answers_block.
  destruct (questions s) as [|q qs] eqn:Hqs; [done|]. rewrite <- Hqs.
  destruct (decide (length (user_answers s) ≠ length (questions s))) as [Hd|Hd].
  - eexists. split; [done|]. simpl. rewrite length_replicate.
    split_and!; [done|by repeat split|done..].
  - exists s. split; [done|].
    split_and!; [|by repeat split|done..].
    by destruct (decide (length (user_answers s) = length (questions s))).
Qed.

(** What the answers block leaves, for any recordings. *)
Lemma answers_block_effect audio s :
  questions s ≠ [] →
  let o := answers_block audio s in
  let n := length (questions s) in
  uncaught o = None ∧ same_round s (final o) ∧
  length (user_answers (final o)) = n ∧
  (∀ j, (j < n)%nat →
     ∃ v, user_answers (final o) !! j = Some v
          ∧ ans (final o) !! (question_set_id s, j) = Some v
          ∧ is_Some (last_audio_hash (final o) !! j)
          ∧ ((∀ a, audio j = Some a →
                   mjoin (last_audio_hash s !! j) = Some (audio_hash a)) →
             v = merged_text j "" s
             ∧ mjoin (last_audio_hash (final o) !! j)
               = mjoin (last_audio_hash s !! j))) ∧
  (∀ j, (n ≤ j)%nat →
     last_audio_hash (final o) !! j = last_audio_hash s !! j) ∧
  (∀ key, (∀ j, (j < n)%nat → key ≠ (question_set_id s, j)) →
     ans (final o) !! key = ans s !! key) ∧
  (quiet audio s → calls o = []) ∧
  (length (user_answers s) = n →
   ∀ j, (n ≤ j)%nat → user_answers (final o) !! j = user_answers s !! j).
Proof.
  intros Hne.
  destruct (answers_block_loop audio s Hne)
    as (s0 & -> & Hlen & Hsame & Hans & Hhash & Hid).
  destruct (answers_prefix audio s0 _ (length (questions s)) Hlen)
    as (Hu & Hsame' & Hlen' & Hdone & Hrest & Hkeys & Hcalls); [done|].
  destruct Hsame as (Hqid & Hq & Hev & Hmo & Hcur & Hgen & Hpdf & Hsets).
  destruct Hsame' as (Hqid' & Hq' & Hev' & Hmo' & Hcur' & Hgen' & Hpdf' & Hsets').
  cbv zeta. rewrite Hqid, Hhash, Hans in *.
  split_and!; [done|repeat split; congruence|done| | | | |].
  - intros j Hj. destruct (Hdone j Hj) as (v & ? & ? & ? & Hquiet).
    exists v. split_and!; [done..|].
    intros Hg. destruct (Hquiet Hg) as [-> ?]. split; [|done].
    apply merged_text_ext; [done|by rewrite Hans].
  - intros j Hj. by destruct (Hrest j Hj).
  - done.
  - intros Hquiet. apply Hcalls. intros j a _. apply Hquiet.
  - intros Hal j Hj. rewrite <- (Hid Hal) at 2. by destruct (Hrest j Hj).
Qed.

(** The value a quiet pass writes is stable: written back and read
    again, it merges to itself. *)
Lemma merged_text_settled i s s' :
  question_set_id s' = question_set_id s →
  ans s' !! (question_set_id s, i) = Some (merged_text i "" s) →
  merged_text i "" s' = merged_text i "" s.
Proof.
  intros Hq Ha. unfold merged_text at 1. unfold existing_text.
  rewrite Hq, Ha. simpl. unfold merged_text, existing_text.
  destruct (nonempty (strip (default "" (ans s !! (question_set_id s, i)))))
    eqn:Hne.
  - by rewrite strip_join_space_empty, Hne.
  - done.
Qed.

Lemma merged_text_empty i s :
  merged_text i "" s
  = let t := strip (default "" (ans s !! (question_set_id s, i))) in
    if nonempty t then t +:+ " " else "".
Proof. done. Qed.

(** X1: a recording whose digest is the one stored for its question is
    not sent to the transcription service, and the loop body leaves the
    session exactly as it does when no recording is delivered; only the
    notice that it was already transcribed is added. *)
Theorem redelivered_recording_acts_as_none (i : nat) (a : recording)
    (s : session) :
  mjoin (last_audio_hash s !! i) = Some (audio_hash a) →
  let o := answer_slot i (Some a) s in
  final o = final (answer_slot i None s) ∧
  uncaught o = uncaught (answer_slot i None s) ∧
  notices o = [info_already_transcribed] ∧
  calls o = [].
Proof. intros Hg. cbv zeta. by rewrite answer_slot_guarded. Qed.

(** X2: when the transcription call fails, or the transcript is empty
    after stripping, the recording was sent, the failure or the warning
    is shown, and the session is left exactly as when no recording is
    delivered.  In particular the digest is not stored, so the same
    recording is sent again by the next run. *)
Theorem unmerged_recording_is_sent_again (i : nat) (a : recording)
    (s : session) :
  mjoin (last_audio_hash s !! i) ≠ Some (audio_hash a) →
  (whisper a = transcription_failed
   ∨ ∃ text, whisper a = transcribed text ∧ strip text = "") →
  let o := answer_slot i (Some a) s in
  final o = final (answer_slot i None s) ∧
  uncaught o = uncaught (answer_slot i None s) ∧
  calls o = [transcription_request (audio_hash a)] ∧
  notices o = match whisper a with
              | transcription_failed => [error_transcription_failed]
              | transcribed _ => [warning_empty_transcription]
              end ∧
  calls (answer_slot i (Some a) (final o))
  = [transcription_request (audio_hash a)].
Proof.
  intros Hg Hw. cbv zeta. rewrite answer_slot_unmerged by done. simpl.
  split_and!; [done..|].
  rewrite answer_slot_calls. apply dictation_sends.
  destruct (init_last_hash_frame i (final (answer_slot i None s)))
    as (_ & _ & _ & _ & ->).
  rewrite answer_slot_none_hash.
  by destruct (init_last_hash_frame i s) as (_ & _ & _ & _ & ->).
Qed.


(** X4: whatever the audio widgets deliver, the answers block raises
    nothing and leaves one answer per question, each equal to the content
    of its text area; the text-area keys of other rounds and the
    questions, evaluations, history, counters and flags are untouched. *)
Theorem answers_block_mirrors_text_areas (audio : nat → option recording)
    (s : session) :
  questions s ≠ [] →
  let o := answers_block audio s in
  uncaught o = None ∧
  same_round s (final o) ∧
  length (user_answers (final o)) = length (questions s) ∧
  (∀ i, (i < length (questions s))%nat →
     is_Some (user_answers (final o) !! i)
     ∧ user_answers (final o) !! i = ans (final o) !! (question_set_id s, i)) ∧
  (∀ q i, q ≠ question_set_id s →
     ans (final o) !! (q, i) = ans s !! (q, i)).
Proof.
  intros Hne.
  destruct (answers_block_effect audio s Hne)
    as (Hu & Hsame & Hlen & Hdone & _ & Hkeys & _).
  cbv zeta. split_and!; [done..| |].
  - intros i Hi. destruct (Hdone i Hi) as (v & -> & -> & _). by split; [eexists|].
  - intros q i Hq. apply Hkeys. intros j _. congruence.
Qed.

(** X5: in a run in which no recording is transcribed, the answers block
    sends nothing, keeps the stored digests, and writes to every answer
    the stripped content of its text area followed by one space, or the
    empty string when the text area is blank. *)
Theorem quiet_run_normalises_answers (audio : nat → option recording)
    (s : session) (i : nat) :
  questions s ≠ [] → quiet audio s → (i < length (questions s))%nat →
  let o := answers_block audio s in
  let typed := strip (default "" (ans s !! (question_set_id s, i))) in
  calls o = [] ∧
  user_answers (final o) !! i
  = Some (if nonempty typed then typed +:+ " " else "") ∧
  mjoin (last_audio_hash (final o) !! i) = mjoin (last_audio_hash s !! i).
Proof.
  intros Hne Hquiet Hi.
  destruct (answers_block_effect audio s Hne)
    as (_ & _ & _ & Hdone & _ & _ & Hcalls & _).
  destruct (Hdone i Hi) as (v & Hua & _ & _ & Hv).
  destruct Hv as [-> Hh]; [intros a; apply Hquiet|].
  cbv zeta. by split_and!; [apply Hcalls|..].
Qed.

Lemma session_eq s s' :
  same_round s s' → user_answers s' = user_answers s →
  last_audio_hash s' = last_audio_hash s → ans s' = ans s → s' = s.
Proof.
  intros (? & ? & ? & ? & ? & ? & ? & ?) ? ? ?.
  destruct s, s'. simpl in *. by subst.
Qed.

(** A run that transcribes nothing reaches a fixed point. *)
Lemma answers_block_quiet_fixpoint (audio : nat → option recording)
    (s : session) :
  quiet audio s →
  let s1 := final (answers_block audio s) in
  quiet audio s1 ∧ final (answers_block audio s1) = s1.
Proof.
  intros Hquiet. cbv zeta.
  destruct (questions s) as [|q0 qs0] eqn:Hqs.
  { assert (answers_block audio s = ok s) as ->
      by (unfold answers_block; by rewrite Hqs).
    simpl. split; [done|]. unfold answers_block. by rewrite Hqs. }
  assert (Hne : questions s ≠ []) by (by rewrite Hqs). clear Hqs.
  destruct (answers_block_effect audio s Hne)
    as (_ & Hsame & Hlen & Hdone & Hrest & _ & _ & _).
  set (s1 := final (answers_block audio s)) in *.
  destruct Hsame as (Hqid & Hq & Hsame).
  assert (Hquiet1 : quiet audio s1).
  { intros i a Ha.
    destruct (decide (i < length (questions s))%nat) as [Hi|Hi].
    - destruct (Hdone i Hi) as (v & _ & _ & _ & Hv).
      destruct Hv as [_ ->]; [intros a'; apply Hquiet|]. by apply Hquiet.
    - rewrite Hrest by lia. by apply Hquiet. }
  split; [done|].
  assert (Hne1 : questions s1 ≠ []) by (by rewrite Hq).
  destruct (answers_block_effect audio s1 Hne1)
    as (_ & Hsame2 & Hlen2 & Hdone2 & Hrest2 & Hkeys2 & _ & Hua2).
  rewrite Hq, Hqid in *.
  apply session_eq; [done| | |].
  - apply list_eq. intros j.
    destruct (decide (j < length (questions s))%nat) as [Hj|Hj].
    + destruct (Hdone j Hj) as (v & Hua & Hans & _ & Hv).
      destruct Hv as [-> _]; [intros a'; apply Hquiet|].
      destruct (Hdone2 j Hj) as (v2 & -> & _ & _ & Hv2).
      destruct Hv2 as [-> _]; [intros a'; apply Hquiet1|].
      rewrite Hua. f_equal. by apply merged_text_settled.
    + apply Hua2; [done|lia].
  - apply map_eq. intros j.
    destruct (decide (j < length (questions s))%nat) as [Hj|Hj].
    + destruct (Hdone j Hj) as (v & _ & _ & [h1 Hh1] & Hv).
      destruct (Hdone2 j Hj) as (v2 & _ & _ & [h2 Hh2] & Hv2).
      destruct Hv2 as [_ Hm]; [intros a'; apply Hquiet1|].
      rewrite Hh1, Hh2 in Hm |- *. simpl in Hm. by rewrite Hm.
    + apply Hrest2. lia.
  - apply map_eq. intros [q j].
    destruct (decide (q = question_set_id s ∧ (j < length (questions s))%nat))
      as [[-> Hj]|Hk].
    + destruct (Hdone j Hj) as (v & _ & Hans & _ & Hv).
      destruct Hv as [-> _]; [intros a'; apply Hquiet|].
      destruct (Hdone2 j Hj) as (v2 & _ & -> & _ & Hv2).
      destruct Hv2 as [-> _]; [intros a'; apply Hquiet1|].
      rewrite Hans. f_equal. by apply merged_text_settled.
    + apply Hkeys2. intros j' Hj' [= -> ->]. by apply Hk.
Qed.

(** X6: a run in which no recording is transcribed is idempotent: after
    one such run of the answers block, another one with the same audio
    widgets leaves the session as it is. *)
Theorem quiet_run_is_idempotent (audio : nat → option recording)
    (s : session) :
  quiet audio s →
  let s1 := final (answers_block audio s) in
  quiet audio s1 ∧ final (answers_block audio s1) = s1.
Proof. apply answers_block_quiet_fixpoint. Qed.

Lemma grading_items_lookup questions user_answers i q a :
  questions !! i = Some q → user_answers !! i = Some a →
  grading_items questions user_answers !! i
  = Some (mkGradingItem (question q) (answer_key q) a).
Proof.
  revert user_answers i.
  induction questions as [|q' qs IH]; intros [|a' ans] [|i]; simpl; try done.
  - by intros [= ->] [= ->].
  - apply IH.
Qed.

Lemma click_evaluate_calls resp s :
  calls (click_evaluate resp s)
  = [grading_request (grading_items (questions s) (user_answers s))].
Proof.
  unfold click_evaluate, score_short_answers.
  destruct resp as [| |results]; simpl; try done.
  destruct (Json.truthy results); [|done].
  by destruct (aggregate results) as [e|[[t m] pct]].
Qed.

(** X7: what is typed into the text area of a question is what the
    grader gets for it.  In an Evaluate run in which no recording is
    transcribed, exactly one request is sent, the grading request; it
    has one entry per question, and the entry of the question holds its
    text, its answer key and the typed text, stripped and followed by one
    space (the empty string when only white space was typed). *)
Theorem typed_answer_is_graded (audio : nat → option recording)
    (resp : completion) (s : session) (i : nat) (text : string)
    (q : Question) :
  quiet audio s → questions s !! i = Some q →
  let typed := strip text in
  let o := run_evaluate audio resp (type_answer i text s) in
  ∃ items,
    calls o = [grading_request items] ∧
    length items = length (questions s) ∧
    items !! i
    = Some (mkGradingItem (question q) (answer_key q)
              (if nonempty typed then typed +:+ " " else "")).
Proof.
  intros Hquiet Hq. cbv zeta.
  set (st := type_answer i text s).
  assert (Hne : questions st ≠ []) by (simpl; by destruct (questions s)).
  assert (Hi : (i < length (questions st))%nat)
    by (simpl; by eapply lookup_lt_Some).
  destruct (answers_block_effect audio st Hne)
    as (Hu & Hsame & Hlen & Hdone & _ & _ & Hcalls & _).
  destruct Hsame as (_ & Hqs & _).
  destruct (Hdone i Hi) as (v & Hua & _ & _ & Hv).
  destruct Hv as [-> _]; [intros a; apply Hquiet|].
  unfold run_evaluate. destruct (questions st) as [|q0 qs0] eqn:Hqst; [done|].
  rewrite <- Hqst in *. unfold and_then. rewrite Hu. simpl.
  rewrite Hcalls by done. rewrite click_evaluate_calls. simpl.
  eexists. split; [done|]. rewrite Hqs.
  split; [rewrite grading_items_length; simpl in *; lia|].
  erewrite grading_items_lookup; [|done..].
  do 2 f_equal. rewrite merged_text_empty. simpl.
  by rewrite lookup_insert_eq.
Qed.

End AnswersLoop.

(** ** Rounds and the history of sets *)
Section Rounds.
Import PyStr PyStrFacts.

Lemma normalize_item_stripped item q :
  normalize_item item = inr (Some q) → stripped q.
Proof.
  unfold normalize_item, Json.get. destruct item as [| | | | |d]; try done.
  simpl.
  destruct (Json.truthy (default JNull (Json.assoc "question" d))); [|done].
  destruct (Json.truthy (default JNull (Json.assoc "answer_key" d))); [|done].
  destruct (Json.strip (default (JStr "") (Json.assoc "topic" d)))
    as [|t] eqn:Ht; [done|]. simpl.
  destruct (Json.strip (default (JStr "") (Json.assoc "question" d)))
    as [|x] eqn:Hx; [done|]. simpl.
  destruct (Json.strip (default (JStr "") (Json.assoc "answer_key" d)))
    as [|k] eqn:Hk; [done|]. simpl.
  intros [= <-]. unfold stripped. simpl.
  unfold Json.strip in *.
  repeat match goal with
         | H : match ?v with _ => _ end = inr _ |- _ => destruct v; try done
         end.
  simplify_eq. by rewrite !strip_idemp.
Qed.

Lemma normalize_list_stripped items qs :
  normalize_list items = inr qs → Forall stripped qs.
Proof.
  revert qs. induction items as [|item rest IH]; intros qs; simpl.
  - by intros [= <-].
  - destruct (normalize_item item) as [e|o] eqn:Hi; simpl; [done|].
    destruct (normalize_list rest) as [e|qs'] eqn:Hr; simpl; [done|].
    intros [= <-]. destruct o as [q|]; [|by apply IH].
    constructor; [by eapply normalize_item_stripped|by apply IH].
Qed.

Lemma generated_questions_stripped resp :
  Forall stripped (generated_questions resp).1.
Proof.
  destruct resp as [| |v]; simpl; try done.
  destruct (normalize_items v) as [e|qs] eqn:Hn; simpl; [done|].
  unfold normalize_items in Hn.
  destruct (Json.iterate v) as [e|items]; simpl in Hn; [done|].
  by eapply normalize_list_stripped.
Qed.

(** The two ways the generation block ends. *)
Lemma generation_block_cases num_questions resp now s :
  let o := generation_block num_questions resp now s in
  let qs := (generated_questions resp).1 in
  uncaught o = None ∧
  ((qs = [] ∧ final o = set_generate_now false s)
   ∨ (qs ≠ [] ∧
      final o
      = set_current_set_id (Some (length (history s)))
          (set_all_question_sets
             (Some (history s ++
                    [mkQuestionSet (length (history s)) qs
                       (List.filter nonempty (map topic qs)) now]))
             (set_user_answers (replicate (length qs) "")
                (set_questions_key qs (set_generate_now false s)))))).
Proof.
  unfold generation_block.
  destruct (generated_questions resp) as [[|q qs] shown]; simpl.
  - split; [done|]. by left.
  - split; [done|]. by right.
Qed.

Lemma well_formed_ext s s' :
  all_question_sets s' = all_question_sets s →
  current_set_id s' = current_set_id s → questions s' = questions s →
  user_answers s' = user_answers s →
  question_set_id s' = question_set_id s → ans s' = ans s →
  well_formed s → well_formed s'.
Proof.
  intros Hsets Hcur Hq Hua Hqid Hans [].
  split; unfold history in *; rewrite ?Hsets, ?Hcur, ?Hq, ?Hua, ?Hqid, ?Hans;
    done.
Qed.

Lemma well_formed_initial : well_formed initial_session.
Proof.
  split; simpl; try done.
  intros q i [x Hx]. by rewrite lookup_empty in Hx.
Qed.

Lemma well_formed_type i text s :
  well_formed s → well_formed (type_answer i text s).
Proof.
  intros []. split; try done. simpl. intros q j [x Hx].
  destruct (decide ((question_set_id s, i) = (q, j))) as [[= <- <-]|Hne].
  - done.
  - rewrite lookup_insert_ne in Hx by done. eauto.
Qed.

Lemma well_formed_click_generate s :
  well_formed s → well_formed (final (click_generate_questions s)).
Proof.
  intros []. unfold click_generate_questions.
  destruct (nonempty (pdf_text s)); [|by split].
  split; simpl; try done; [lia|].
  intros q i Hk. specialize (wf_keys0 q i Hk). lia.
Qed.

Lemma well_formed_new_set s :
  well_formed s → well_formed (final (click_generate_new_set s)).
Proof.
  intros []. split; simpl; try done; [lia|].
  intros q i Hk. specialize (wf_keys0 q i Hk). lia.
Qed.

Lemma well_formed_generation_block num_questions resp now s :
  well_formed s →
  well_formed (final (generation_block num_questions resp now s)).
Proof.
  intros Hwf.
  destruct (generation_block_cases num_questions resp now s)
    as (_ & [[_ ->]|[Hne ->]]).
  { by apply (well_formed_ext s). }
  pose proof (generated_questions_stripped resp) as Hstr.
  set (qs := (generated_questions resp).1) in *.
  destruct Hwf. split; unfold history in *; simpl; try done.
  - intros k st Hk. apply lookup_snoc_Some in Hk as [[Hlt Hk]|[-> <-]]; eauto.
  - rewrite length_app. simpl.
    destruct (default [] (all_question_sets s) ++ _) eqn:E.
    + by destruct (default [] (all_question_sets s)).
    + f_equal. lia.
  - intros _. by rewrite last_snoc.
  - by rewrite length_replicate.
  - apply Forall_app. split; [done|]. by repeat constructor.
Qed.

Lemma well_formed_generation_section uploaded_file num_questions resp now s :
  well_formed s →
  well_formed
    (final (generation_section uploaded_file num_questions resp now s)).
Proof.
  intros Hwf. unfold generation_section.
  destruct (uploaded_file && generate_now s); [|done].
  by apply well_formed_generation_block.
Qed.

Lemma click_evaluate_final resp s :
  final (click_evaluate resp s)
  = set_evaluations
      match resp with parsed results => results | _ => JList [] end s.
Proof.
  unfold click_evaluate, score_short_answers.
  destruct resp as [| |results]; simpl; try done.
  destruct (Json.truthy results); [|done].
  by destruct (aggregate results) as [e|[[t m] pct]].
Qed.

Lemma well_formed_answers_block audio s :
  well_formed s → well_formed (final (answers_block audio s)).
Proof.
  intros Hwf.
  destruct (decide (questions s = [])) as [Hq|Hne].
  { unfold answers_block. by rewrite Hq. }
  destruct (answers_block_effect audio s Hne)
    as (_ & Hsame & Hlen & Hdone & _ & Hkeys & _).
  destruct Hsame as (Hqid & Hqs & _ & _ & Hcur & _ & _ & Hsets).
  destruct Hwf. split; unfold history in *;
    rewrite ?Hsets, ?Hcur, ?Hqs, ?Hqid; try done.
  intros q i Hk.
  destruct (decide (q = question_set_id s)) as [->|Hq]; [done|].
  rewrite Hkeys in Hk by (intros j _; congruence). eauto.
Qed.

(** Every session the script can be in is well formed. *)
Lemma reachable_well_formed s : reachable s → well_formed s.
Proof.
  induction 1.
  - apply well_formed_initial.
  - by apply (well_formed_ext s).
  - by apply well_formed_type.
  - by apply well_formed_click_generate.
  - by apply well_formed_generation_section.
  - by apply well_formed_answers_block.
  - rewrite click_evaluate_final. by apply (well_formed_ext s).
  - by apply well_formed_new_set.
Qed.

Lemma elem_of_get_used_topics s t :
  t ∈ get_used_topics s ↔ ∃ st, st ∈ history s ∧ t ∈ topics st.
Proof.
  unfold get_used_topics, history.
  rewrite merge_sort_Permutation, elem_of_elements, elem_of_used.
  set_solver.
Qed.

Lemma stored_sets_numbered_aux s :
  reachable s → current_set_id s = set_id <$> last (history s).
Proof.
  intros [Hids Hcur _ _ _ _ _]%reachable_well_formed.
  rewrite Hcur, last_lookup.
  destruct (history s) as [|st0 l] eqn:E; [done|]. rewrite <- E in *.
  destruct (history s !! pred (length (history s))) as [st|] eqn:Hl.
  - simpl. by rewrite (Hids _ _ Hl).
  - apply lookup_ge_None in Hl. rewrite E in Hl. simpl in Hl. lia.
Qed.

(** X8: in every session the script can be in, the stored sets are
    numbered by their position: the k-th set of the history has
    [set_id] k, so the ids are distinct and increase along the history,
    and [current_set_id] is the id of the newest set (and [None] exactly
    when nothing was committed yet). *)
Theorem stored_sets_are_numbered (s : session) :
  reachable s →
  (∀ k st, history s !! k = Some st → set_id st = k) ∧
  (∀ k k' st st', history s !! k = Some st → history s !! k' = Some st' →
     (k < k')%nat → (set_id st < set_id st')%nat) ∧
  current_set_id s = set_id <$> last (history s).
Proof.
  intros Hr. pose proof (reachable_well_formed s Hr) as [Hids _ _ _ _ _ _].
  split_and!; [done| |].
  - intros k k' st st' Hk Hk' Hlt.
    by rewrite (Hids _ _ Hk), (Hids _ _ Hk').
  - by apply stored_sets_numbered_aux.
Qed.

(** X9: in every session the script can be in there is exactly one
    answer per active question, so the length check at the head of the
    answers block never has to reset the answers. *)
Theorem one_answer_per_question (s : session) :
  reachable s → length (user_answers s) = length (questions s).
Proof. by intros []%reachable_well_formed. Qed.

(** X10: in every session the script can be in, the active questions,
    when there are any, are the questions of the newest stored set, and
    [current_set_id] is that set's id. *)
Theorem active_questions_are_newest_set (s : session) :
  reachable s → questions s ≠ [] →
  ∃ st, last (history s) = Some st ∧ set_questions st = questions s
        ∧ current_set_id s = Some (set_id st).
Proof.
  intros Hr Hne.
  pose proof (stored_sets_numbered_aux s Hr) as Hcur.
  destruct (reachable_well_formed s Hr) as [_ _ Hact _ _ _ _].
  specialize (Hact Hne).
  destruct (last (history s)) as [st|] eqn:Hl; [|done].
  exists st. simpl in *. split_and!; [done|congruence|done].
Qed.

Lemma and_then_final o f :
  uncaught o = None → final (and_then o f) = final (f (final o)).
Proof. intros Hu. unfold and_then. by rewrite Hu. Qed.

Lemma and_then_uncaught o f :
  uncaught o = None → uncaught (and_then o f) = uncaught (f (final o)).
Proof. intros Hu. unfold and_then. by rewrite Hu. Qed.

(** What a generation section leaves of the keys it does not write. *)
Lemma generation_section_frame uploaded_file num_questions resp now s :
  let s' := final (generation_section uploaded_file num_questions resp now s) in
  question_set_id s' = question_set_id s ∧ ans s' = ans s ∧
  last_audio_hash s' = last_audio_hash s ∧ evaluations s' = evaluations s ∧
  pdf_text s' = pdf_text s ∧ mode s' = mode s.
Proof.
  unfold generation_section.
  destruct (uploaded_file && generate_now s); [|done].
  by destruct (generation_block_cases num_questions resp now s)
    as (_ & [[_ ->]|[_ ->]]).
Qed.

(** In a session whose text areas of the current round are all unset, a
    run that transcribes nothing leaves every answer empty. *)
Lemma blank_round_answers audio s i :
  (∀ j, ans s !! (question_set_id s, j) = None) → quiet audio s →
  (i < length (questions s))%nat →
  user_answers (final (answers_block audio s)) !! i = Some "".
Proof.
  intros Hblank Hquiet Hi.
  assert (Hne : questions s ≠ []) by (destruct (questions s); simpl in *; [lia|done]).
  destruct (answers_block_effect audio s Hne) as (_ & _ & _ & Hdone & _).
  destruct (Hdone i Hi) as (v & -> & _ & _ & Hv).
  destruct Hv as [-> _]; [intros a; apply Hquiet|].
  rewrite merged_text_empty. simpl. by rewrite Hblank.
Qed.

(** X11: the text-area keys carry the round counter, and no key of a
    later round exists.  So after either generation button was accepted,
    whether the generation then succeeds or fails, the text areas of the
    new round are unset, and the next answers block that transcribes
    nothing leaves every answer empty: nothing typed or dictated in an
    earlier round reaches the new one.  After the "Generate Questions"
    button this also blanks the answers to the questions a failed
    generation leaves in place. *)
Theorem new_round_starts_blank (audio : nat → option recording)
    (uploaded_file : bool) (num_questions : Z) (resp : completion)
    (now : string) (s : session) (by_new_set : bool) :
  reachable s →
  (if by_new_set then questions s ≠ [] else nonempty (pdf_text s) = true) →
  let o := if by_new_set
           then attempt_generate_new_set uploaded_file num_questions resp now s
           else attempt_generate_questions num_questions resp now s in
  (∀ q i, is_Some (ans s !! (q, i)) → q < question_set_id (final o)) ∧
  question_set_id (final o) = question_set_id s + 1 ∧
  (∀ i, existing_text i (final o) = "") ∧
  (quiet audio (final o) →
   ∀ i, (i < length (questions (final o)))%nat →
        user_answers (final (answers_block audio (final o))) !! i = Some "").
Proof.
  intros Hr Hclick.
  pose proof (reachable_well_formed s Hr) as [_ _ _ _ _ Hkeys _].
  assert (Hfin : question_set_id
                   (final (if by_new_set
                           then attempt_generate_new_set uploaded_file
                                  num_questions resp now s
                           else attempt_generate_questions num_questions
                                  resp now s))
                 = question_set_id s + 1
                 ∧ ans (final (if by_new_set
                               then attempt_generate_new_set uploaded_file
                                      num_questions resp now s
                               else attempt_generate_questions num_questions
                                      resp now s)) = ans s).
  { destruct by_new_set.
    - unfold attempt_generate_new_set. rewrite and_then_final by done.
      destruct (generation_section_frame uploaded_file num_questions resp now
                  (final (click_generate_new_set s))) as (-> & -> & _).
      done.
    - unfold attempt_generate_questions. rewrite and_then_final
        by (unfold click_generate_questions; by rewrite Hclick).
      destruct (generation_section_frame true num_questions resp now
                  (final (click_generate_questions s))) as (-> & -> & _).
      unfold click_generate_questions. by rewrite Hclick. }
  destruct Hfin as [Hqid Hans]. cbv zeta.
  assert (Hblank : ∀ j, ans (final (if by_new_set
                               then attempt_generate_new_set uploaded_file
                                      num_questions resp now s
                               else attempt_generate_questions num_questions
                                      resp now s))
                        !! (question_set_id s + 1, j) = None).
  { intros j. rewrite Hans.
    destruct (ans s !! (question_set_id s + 1, j)) eqn:E; [|done].
    assert (question_set_id s + 1 ≤ question_set_id s)
      by (apply (Hkeys _ j); by eexists).
    lia. }
  rewrite Hqid. split_and!; [|done| |].
  - intros q i Hk. specialize (Hkeys q i Hk). lia.
  - intros i. unfold existing_text. by rewrite Hqid, Hblank.
  - intros Hquiet i Hi. apply blank_round_answers; [|done..].
    intros j. by rewrite Hqid.
Qed.

(** X12: in every session the script can be in, every stored set holds
    at least one question, the fields of the stored questions carry no
    surrounding white space, and every topic [get_used_topics] returns
    is a non-empty, stripped topic of a stored question. *)
Theorem stored_topics_are_clean (s : session) :
  reachable s →
  Forall (λ st, set_questions st ≠ [] ∧ Forall stripped (set_questions st))
    (history s) ∧
  (∀ t, t ∈ get_used_topics s →
     nonempty t = true ∧ strip t = t
     ∧ ∃ st q, st ∈ history s ∧ q ∈ set_questions st ∧ topic q = t).
Proof.
  intros [_ _ _ _ _ _ Hsets]%reachable_well_formed. split.
  - eapply Forall_impl; [done|]. by intros st (? & ? & _).
  - intros t (st & Hst & Ht)%elem_of_get_used_topics.
    rewrite Forall_forall in Hsets.
    destruct (Hsets st Hst) as (_ & Hstr & Htop).
    rewrite Htop in Ht. apply list_elem_of_In, filter_In in Ht as [Ht Hne].
    apply in_map_iff in Ht as (q & <- & Hq%list_elem_of_In).
    rewrite Forall_forall in Hstr. destruct (Hstr q Hq) as (Hs & _).
    split_and!; [done..|]. by exists st, q.
Qed.

(** X13: the generation block only adds to the topic ledger.  After it,
    [get_used_topics] returns exactly the topics it returned before and
    the non-empty topics of the questions the block got from the
    response (none when the generation failed or kept no entry). *)
Theorem generation_extends_used_topics (num_questions : Z)
    (resp : completion) (now : string) (s : session) (t : string) :
  t ∈ get_used_topics (final (generation_block num_questions resp now s))
  ↔ t ∈ get_used_topics s
    ∨ (nonempty t = true ∧ t ∈ topic <$> (generated_questions resp).1).
Proof.
  rewrite !elem_of_get_used_topics.
  destruct (generation_block_cases num_questions resp now s)
    as (_ & [[Hqs ->]|[Hqs ->]]).
  - rewrite Hqs. unfold history. simpl. split; [by left|].
    intros [?|[_ H]]; [done|]. by apply elem_of_nil in H.
  - unfold history at 1. simpl. split.
    + intros (st & [Hst|Hst]%elem_of_app & Ht); [left; by exists st|].
      apply list_elem_of_singleton in Hst as ->. simpl in Ht.
      apply list_elem_of_In, filter_In in Ht as [Ht Hne].
      right. split; [done|]. by apply list_elem_of_In.
    + intros [(st & Hst & Ht)|[Hne Ht]].
      * exists st. split; [|done]. apply elem_of_app. by left.
      * eexists. split; [apply elem_of_app; right; by apply list_elem_of_singleton|].
        simpl. apply list_elem_of_In, filter_In. split; [|done].
        by apply list_elem_of_In.
Qed.

(** X14: a new round, started with the "Generate a New Set of
    Questions" button, ends with no evaluations and with one empty
    answer per active question, whether the generation succeeds, fails
    or is skipped because no file is uploaded; the active questions are
    the ones the generation kept (none on failure); the stored sets are
    all still there, in their order, and [get_used_topics] loses no
    topic. *)
Theorem new_round_resets_and_keeps_history (uploaded_file : bool)
    (num_questions : Z) (resp : completion) (now : string) (s : session) :
  let o := attempt_generate_new_set uploaded_file num_questions resp now s in
  uncaught o = None ∧
  evaluations (final o) = JList [] ∧
  mode (final o) = generate ∧
  questions (final o)
  = (if uploaded_file then (generated_questions resp).1 else []) ∧
  user_answers (final o) = replicate (length (questions (final o))) "" ∧
  history s `prefix_of` history (final o) ∧
  (∀ t, t ∈ get_used_topics s → t ∈ get_used_topics (final o)).
Proof.
  cbv zeta. unfold attempt_generate_new_set.
  set (s0 := final (click_generate_new_set s)).
  assert (Hprefix_topics : ∀ s', history s `prefix_of` history s' →
            ∀ t, t ∈ get_used_topics s → t ∈ get_used_topics s').
  { intros s' [k Hk] t. rewrite !elem_of_get_used_topics, Hk.
    intros (st & ? & ?). exists st. split; [|done]. apply elem_of_app. by left. }
  rewrite and_then_final, and_then_uncaught by done. fold s0.
  destruct uploaded_file.
  2:{ change (generation_section false num_questions resp now s0) with (ok s0).
      split_and!; try done; by apply Hprefix_topics. }
  change (generation_section true num_questions resp now s0)
    with (generation_block num_questions resp now s0).
  destruct (generation_block_cases num_questions resp now s0)
    as (Hu & [[Hqs Hf]|[Hqs Hf]]); rewrite Hu, Hf, ?Hqs; simpl.
  - split_and!; try done; by apply Hprefix_topics.
  - assert (Hp : history s `prefix_of`
                 history s ++
                   [mkQuestionSet (length (history s))
                      (generated_questions resp).1
                      (List.filter nonempty
                         (map topic (generated_questions resp).1)) now])
      by (by eexists).
    split_and!; try done; by apply Hprefix_topics.
Qed.

(** X15: the [generate_now] flag makes one generation.  The generation
    section that runs the block clears the flag, so a later run without
    a click sends no request and changes nothing.  When the flag is set
    but no file is uploaded, nothing is sent and the flag stays set, and
    the first run with a file generates without any click. *)
Theorem generation_runs_once_per_flag (num_questions num_questions' : Z)
    (resp resp' : completion) (now now' : string) (uploaded_file' : bool)
    (s : session) :
  let s1 := final (generation_section true num_questions resp now s) in
  generate_now s1 = false ∧
  generation_section uploaded_file' num_questions' resp' now' s1 = ok s1 ∧
  generation_section false num_questions resp now s = ok s ∧
  let s2 := final (attempt_generate_new_set false num_questions resp now s) in
  generate_now s2 = true ∧
  calls (attempt_generate_new_set false num_questions resp now s) = [] ∧
  calls (generation_section true num_questions' resp' now' s2)
  = [generation_request num_questions' (get_used_topics s) (pdf_text s)].
Proof.
  cbv zeta.
  assert (H1 : generate_now
                 (final (generation_section true num_questions resp now s))
               = false).
  { unfold generation_section. simpl.
    destruct (generate_now s) eqn:Hg; [|done].
    by destruct (generation_block_cases num_questions resp now s)
      as (_ & [[_ ->]|[_ ->]]). }
  split_and!; [done| |done|done|done|].
  - unfold generation_section at 1. rewrite H1. by rewrite andb_false_r.
  - unfold generation_section. simpl. unfold generation_block.
    by destruct (generated_questions resp') as [[|q qs] shown].
Qed.

(** X16: the digests are stored per question index and not per round: a
    new round keeps them.  A recording with the digest that was merged
    for index [i] in an earlier round is therefore not transcribed for
    question [i] of the new round either. *)
Theorem digests_survive_new_round (uploaded_file : bool) (num_questions : Z)
    (resp : completion) (now : string) (s : session) (i : nat)
    (a : recording) :
  mjoin (last_audio_hash s !! i) = Some (audio_hash a) →
  let s' := final (attempt_generate_new_set uploaded_file num_questions
                     resp now s) in
  last_audio_hash s' = last_audio_hash s ∧
  notices (answer_slot i (Some a) s') = [info_already_transcribed] ∧
  calls (answer_slot i (Some a) s') = [].
Proof.
  intros Hg. cbv zeta.
  assert (Hh : last_audio_hash
                 (final (attempt_generate_new_set uploaded_file num_questions
                           resp now s)) = last_audio_hash s).
  { unfold attempt_generate_new_set. rewrite and_then_final by done.
    by destruct (generation_section_frame uploaded_file num_questions resp now
                   (final (click_generate_new_set s))) as (_ & _ & -> & _). }
  split; [done|]. by rewrite answer_slot_guarded by (by rewrite Hh).
Qed.

End Rounds.

(** ** The score line and the uploaded file *)
Section ScoreAndUpload.
Import PyStr PyStrFacts.



Lemma percentages_close_30 : percentages_close_upto 30 = true.
Proof. by vm_compute. Qed.

Lemma sum_scores_bounds scores :
  Forall (λ n, 0 ≤ n ≤ 10) scores →
  0 ≤ foldr Z.add 0 scores ≤ 10 * Z.of_nat (length scores).
Proof. induction 1; simpl; lia. Qed.

(** X18: for one to thirty evaluations whose scores are integers from 0
    to 10 (a missing score counts as 0), the handler raises nothing and
    shows the score line with [0 <= total <= max] and a percentage that
    is the double of a one-decimal number [k / 10] between 0.0 and
    100.0, at most 0.05 away from the exact value of
    [100 * total / max]. *)
Theorem score_line_is_accurate (results : list json) (scores : list Z)
    (s : session) :
  (1 ≤ length results ≤ 30)%nat →
  Forall2 (λ r n, Json.get r "score" (JInt 0) = inr (JInt n)) results scores →
  Forall (λ n, 0 ≤ n ≤ 10) scores →
  let total := foldr Z.add 0 scores in
  let max := 10 * Z.of_nat (length results) in
  ∃ k, notices (click_evaluate (parsed (JList results)) s)
       = [success_evaluation_complete;
          markdown_total_score total max (PyFloat.of_decimal false k 1);
          success_evaluation_complete]
       ∧ uncaught (click_evaluate (parsed (JList results)) s) = None
       ∧ 0 ≤ total ≤ max ∧ 0 ≤ k ≤ 1000
       ∧ 2 * Z.abs (k * max - 1000 * total) ≤ max.
Proof.
  intros Hlen Hscores Hrange. cbv zeta.
  pose proof (Forall2_length _ _ _ Hscores) as Hl.
  pose proof (sum_scores_bounds scores Hrange) as Hb. rewrite <- Hl in Hb.
  set (total := foldr Z.add 0 scores) in *.
  set (n := length results) in *.
  assert (Hclose : percentage_close total (10 * Z.of_nat n) = true).
  { pose proof percentages_close_30 as Hall. unfold percentages_close_upto in Hall.
    rewrite forallb_forall in Hall.
    specialize (Hall n). rewrite forallb_forall in Hall.
    rewrite <- (Z2Nat.id total) by lia. apply Hall.
    - apply in_seq. lia.
    - apply in_seq. lia. }
  unfold percentage_close in Hclose.
  destruct (percentage total (10 * Z.of_nat n)) as [e|pct] eqn:Hp; [done|].
  apply existsb_exists in Hclose as (k & _ & Hk).
  rewrite !andb_true_iff, bool_decide_eq_true in Hk.
  destruct Hk as [[[-> Hk0] Hk1] Hk2].
  exists k.
  assert (Hagg : aggregate (JList results)
                 = inr (total, 10 * Z.of_nat n, PyFloat.of_decimal false k 1)).
  { unfold aggregate. simpl.
    rewrite (sum_scores_integers _ _ _ Hscores). simpl.
    fold total n. rewrite (Z.mul_comm (Z.of_nat n) 10), Z.add_0_l, Hp. done. }
  unfold click_evaluate, score_short_answers. simpl.
  destruct results as [|r rs]; [simpl in *; lia|].
  simpl Json.truthy. cbv iota. rewrite Hagg. simpl.
  split_and!; [done|done|lia..].
Qed.

Lemma app_empty_iff a b : a +:+ b = "" ↔ a = "" ∧ b = "".
Proof.
  destruct a; [rewrite app_nil_l|rewrite app_cons]; naive_solver.
Qed.

Lemma foldl_append_empty pages text :
  foldl (fun text page_text => text +:+ page_text) text pages = ""
  ↔ text = "" ∧ Forall (λ t, t = "") pages.
Proof.
  revert text. induction pages as [|t pages IH]; intros text; simpl.
  - split; [done|by intros []].
  - rewrite IH, app_empty_iff, Forall_cons. tauto.
Qed.

(** The text of a file is empty exactly when no page has text. *)
Lemma extract_text_empty f :
  extract_text_from_pdf f = "" ↔ Forall (λ t, t = "") (page_texts f).
Proof. unfold extract_text_from_pdf. rewrite foldl_append_empty. tauto. Qed.

Lemma nonempty_true_iff x : nonempty x = true ↔ x ≠ "".
Proof. by destruct x. Qed.

(** X19: the extracted text is cached under the file's name.  After a
    file was uploaded, a file with the same name is never read again,
    whatever its pages hold: the block leaves the page as it is and
    shows no success notice.  A file with another name replaces the
    stored text by its own, and removing the file keeps the stored
    text.  In every case the block changes nothing of the session but
    the stored text. *)
Theorem upload_is_cached_by_name (f : upload) (p : page) :
  let p1 := (upload_block (Some f) p).1 in
  has_pdf_text p1 = true ∧
  uploaded_file_name p1 = Some (file_name f) ∧
  (∀ f', file_name f' = file_name f →
     (upload_block (Some f') p1).1 = p1
     ∧ success_pdf_uploaded ∉ (upload_block (Some f') p1).2) ∧
  (∀ f', file_name f' ≠ file_name f →
     pdf_text (state (upload_block (Some f') p1).1) = extract_text_from_pdf f'
     ∧ state (upload_block (Some f') p1).1
       = set_pdf_text (extract_text_from_pdf f') (state p1)) ∧
  upload_block None p1 = (p1, []).
Proof.
  cbv zeta.
  assert (Hp1 : has_pdf_text (upload_block (Some f) p).1 = true
                ∧ uploaded_file_name (upload_block (Some f) p).1
                  = Some (file_name f)).
  { unfold upload_block.
    destruct (negb (has_pdf_text p) || _) eqn:Hc; simpl.
    - by destruct (nonempty (extract_text_from_pdf f)).
    - apply orb_false_iff in Hc as [Hh Hn].
      apply negb_false_iff in Hh, Hn. apply bool_decide_eq_true in Hn.
      rewrite Hh. by destruct (nonempty (pdf_text (state p))). }
  destruct Hp1 as [Hh Hn].
  set (p1 := (upload_block (Some f) p).1) in *.
  split_and!; [done|done| | |done].
  - intros f' Hf'. unfold upload_block.
    rewrite Hh, Hn, Hf', bool_decide_true by done. simpl.
    rewrite Hh.
    destruct (nonempty (pdf_text (state p1))); simpl; (split; [done|]);
      rewrite ?elem_of_cons, ?elem_of_nil; naive_solver.
  - intros f' Hf'. unfold upload_block.
    rewrite Hh, Hn, bool_decide_false by congruence. simpl.
    by destruct (nonempty (extract_text_from_pdf f')).
Qed.

(** X20: on a page without stored text, uploading a file shows the
    warning that no text was extracted exactly when no page of the file
    has text.  With such a file stored, the "Generate Questions" button
    only shows its error: no request is sent, the round counter and the
    [generate_now] flag stay as they were. *)
Theorem textless_upload_blocks_generation (f : upload) (p : page)
    (num_questions : Z) (resp : completion) (now : string) :
  has_pdf_text p = false → generate_now (state p) = false →
  let p1 := (upload_block (Some f) p).1 in
  let shown := (upload_block (Some f) p).2 in
  pdf_text (state p1) = extract_text_from_pdf f ∧
  (warning_no_text_extracted ∈ shown ↔ Forall (λ t, t = "") (page_texts f)) ∧
  (Forall (λ t, t = "") (page_texts f) →
   attempt_generate_questions num_questions resp now (state p1)
   = mkOutcome (state p1) [error_no_text_extracted] [] None).
Proof.
  intros Hh Hg. cbv zeta. unfold upload_block. rewrite Hh. simpl.
  rewrite <- extract_text_empty.
  destruct (nonempty (extract_text_from_pdf f)) eqn:Hne; simpl.
  - apply nonempty_true_iff in Hne. split_and!; [done| |done].
    rewrite ?elem_of_cons, ?elem_of_nil. naive_solver.
  - apply nonempty_false in Hne. split_and!; [done| |].
    + rewrite ?elem_of_cons, ?elem_of_nil. naive_solver.
    + intros _. unfold attempt_generate_questions, click_generate_questions.
      simpl. rewrite Hne. simpl. unfold and_then, generation_section. simpl.
      by rewrite Hg.
Qed.

End ScoreAndUpload.

(** ** Runs of the script *)

Section Script.
Import PyStr PyStrFacts.


Lemma upload_block_reachable uploaded p :
  reachable (state p) → reachable (state (upload_block uploaded p).1).
Proof.
  intros Hr. unfold upload_block. destruct uploaded as [f|]; [|done].
  destruct (negb (has_pdf_text p) || _); simpl.
  - destruct (nonempty _); simpl; by apply reach_upload.
  - by destruct (nonempty _).
Qed.


Lemma step1_generate_reachable inp s :
  reachable s → reachable (final (step1_generate inp s).1).
Proof.
  intros Hr. unfold step1_generate. destruct (uploaded_file inp); [|done].
  destruct (clicked inp); simpl; try by apply reach_generation.
  destruct (nonempty (pdf_text s)) eqn:Hne; simpl.
  - by apply reach_click_generate.
  - rewrite and_then_final
      by (unfold click_generate_questions; by rewrite Hne).
    by apply reach_generation, reach_click_generate.
Qed.

Lemma answers_block_questions audio s :
  questions (final (answers_block audio s)) = questions s.
Proof.
  destruct (decide (questions s = [])) as [Hq|Hne].
  { unfold answers_block. by rewrite Hq. }
  by destruct (answers_block_effect audio s Hne) as (_ & (_ & -> & _) & _).
Qed.

Lemma answers_block_uncaught audio s :
  uncaught (answers_block audio s) = None.
Proof.
  destruct (decide (questions s = [])) as [Hq|Hne].
  { unfold answers_block. by rewrite Hq. }
  by destruct (answers_block_effect audio s Hne) as (-> & _).
Qed.

Lemma step2_answers_reachable inp s :
  reachable s → reachable (final (step2_answers inp s).1).
Proof.
  intros Hr. unfold step2_answers.
  destruct (questions s) as [|q qs] eqn:Hqs; [done|].
  set (audio := audio_widgets inp (question_set_id s)).
  assert (Hq : questions (final (answers_block audio s)) ≠ [])
    by (by rewrite answers_block_questions, Hqs).
  destruct (clicked inp); simpl;
    rewrite ?and_then_final by apply answers_block_uncaught.
  - by apply reach_answers.
  - by apply reach_answers.
  - apply reach_evaluate; [by apply reach_answers|done].
  - apply reach_new_set; [by apply reach_answers|done].
Qed.

Lemma script_pass_reachable inp p :
  reachable (state p) → reachable (state (page_after (script_pass inp p))).
Proof.
  intros Hr. unfold script_pass.
  pose proof (upload_block_reachable (uploaded_file inp) p Hr) as Hr1.
  destruct (upload_block (uploaded_file inp) p) as [p1 shown]. simpl in Hr1.
  pose proof (step1_generate_reachable inp (state p1) Hr1) as Hr2.
  destruct (step1_generate inp (state p1)) as [o stop]. simpl in Hr2.
  destruct stop; [done|].
  pose proof (step2_answers_reachable inp (final o) Hr2) as Hr3.
  by destruct (step2_answers inp (final o)) as [o' again].
Qed.

Lemma script_run_reachable inp resp' now' p :
  reachable (state p) →
  reachable (state (page_after (script_run inp resp' now' p))).
Proof.
  intros Hr. unfold script_run.
  pose proof (script_pass_reachable inp p Hr) as Hr1.
  destruct (rerun (script_pass inp p)); [|done]. simpl.
  by apply script_pass_reachable.
Qed.

Lemma apply_edits_reachable s es :
  reachable s → reachable (foldl apply_edit s es).
Proof.
  revert s. induction es as [|e es IH]; intros s Hr; simpl; [done|].
  apply IH. unfold apply_edit.
  destruct (decide _); [by apply reach_type|done].
Qed.

Lemma page_after_all_reachable xs : reachable (state (page_after_all xs)).
Proof.
  unfold page_after_all.
  assert (Hi : reachable (state initial_page)) by apply reach_initial.
  revert Hi. generalize initial_page.
  induction xs as [|x xs IH]; intros p Hp; simpl; [done|].
  apply IH. unfold interact. apply script_run_reachable. simpl.
  by apply apply_edits_reachable.
Qed.

(** X21: whatever the user does, the session stays in the shape the
    script relies on.  After any sequence of interactions with a new
    session (typing into the text areas shown, then a run with any file,
    slider value, click, recordings and service answers, including runs
    an exception stopped), the stored sets are numbered by their
    positions, [current_set_id] names the newest one, the questions on
    the page are its questions, and there is one answer per question. *)
Theorem every_session_is_well_formed (xs : list interaction) :
  let s := state (page_after_all xs) in
  reachable s ∧ well_formed s.
Proof.
  cbv zeta. split; [apply page_after_all_reachable|].
  apply reachable_well_formed, page_after_all_reachable.
Qed.







Lemma upload_block_cached uploaded p :
  upload_cached uploaded p → (upload_block uploaded p).1 = p.
Proof.
  unfold upload_cached, upload_block. destruct uploaded as [f|]; [|done].
  intros [Hh Hn]. rewrite Hh, Hn, bool_decide_true by done. simpl.
  rewrite Hh. by destruct (nonempty _).
Qed.

Lemma idle_pass inp p :
  clicked inp = no_click → generate_now (state p) = false →
  upload_cached (uploaded_file inp) p →
  quiet (audio_widgets inp (question_set_id (state p))) (state p) →
  let r := script_pass inp p in
  page_after r
  = mkPage (final (answers_block (audio_widgets inp (question_set_id (state p)))
                     (state p)))
      (has_pdf_text p) (uploaded_file_name p)
  ∧ rerun r = false ∧ calls (pass_outcome r) = []
  ∧ uncaught (pass_outcome r) = None.
Proof.
  intros Hc Hg Hup Hquiet. cbv zeta. unfold script_pass.
  pose proof (upload_block_cached _ _ Hup) as Hp.
  destruct (upload_block (uploaded_file inp) p) as [p1 shown].
  simpl in Hp. subst p1.
  assert (step1_generate inp (state p) = (ok (state p), false)) as ->.
  { unfold step1_generate, generation_section.
    destruct (uploaded_file inp); [|done]. by rewrite Hc, Hg. }
  simpl. unfold step2_answers. rewrite Hc.
  destruct (questions (state p)) as [|q qs] eqn:Hqs; simpl.
  { unfold answers_block. by rewrite Hqs. }
  assert (Hne : questions (state p) ≠ []) by (by rewrite Hqs).
  destruct (answers_block_effect
              (audio_widgets inp (question_set_id (state p))) _ Hne)
    as (Hu & _ & _ & _ & _ & _ & Hcalls & _).
  by rewrite Hu, Hcalls.
Qed.

(** X23: a run without an interaction is a no-op that repeats.  When no
    button was clicked, the uploader's file is the cached one, the
    [generate_now] flag is down and no audio widget holds a recording
    that has not been merged, the run sends no request, raises nothing,
    keeps every key outside the answers and text areas, and a second
    such run leaves the page exactly as the first one left it. *)
Theorem idle_run_changes_nothing (inp : pass_input) (resp' : completion)
    (now' : string) (p : page) :
  clicked inp = no_click → generate_now (state p) = false →
  upload_cached (uploaded_file inp) p →
  quiet (audio_widgets inp (question_set_id (state p))) (state p) →
  let r := script_run inp resp' now' p in
  calls (pass_outcome r) = [] ∧ uncaught (pass_outcome r) = None ∧
  same_round (state p) (state (page_after r)) ∧
  has_pdf_text (page_after r) = has_pdf_text p ∧
  uploaded_file_name (page_after r) = uploaded_file_name p ∧
  ∀ resp'' now'',
    page_after (script_run inp resp'' now'' (page_after r)) = page_after r.
Proof.
  intros Hc Hg Hup Hquiet. cbv zeta.
  assert (Hrun : ∀ resp now p0,
            generate_now (state p0) = false →
            upload_cached (uploaded_file inp) p0 →
            quiet (audio_widgets inp (question_set_id (state p0))) (state p0) →
            script_run inp resp now p0 = script_pass inp p0).
  { intros resp now p0 Hg0 Hup0 Hq0. unfold script_run.
    destruct (idle_pass inp p0 Hc Hg0 Hup0 Hq0) as (_ & -> & _). done. }
  rewrite Hrun by done.
  destruct (idle_pass inp p Hc Hg Hup Hquiet) as (Hpage & _ & Hcalls & Hu).
  set (audio := audio_widgets inp (question_set_id (state p))) in *.
  destruct (answers_block_quiet_fixpoint audio (state p) Hquiet) as [Hq1 Hfix].
  assert (Hsame : same_round (state p) (final (answers_block audio (state p)))).
  { destruct (decide (questions (state p) = [])) as [Hq|Hne].
    - unfold answers_block. rewrite Hq. by repeat split.
    - by destruct (answers_block_effect audio (state p) Hne) as (_ & ? & _). }
  rewrite Hpage. simpl. split_and!; try done.
  intros resp'' now''.
  pose proof Hsame as (Hqid & _ & _ & _ & _ & Hg1 & _).
  set (p1 := mkPage (final (answers_block audio (state p)))
               (has_pdf_text p) (uploaded_file_name p)).
  assert (Hg' : generate_now (state p1) = false) by (simpl; congruence).
  assert (Hup' : upload_cached (uploaded_file inp) p1)
    by (by destruct (uploaded_file inp)).
  assert (Hquiet' : quiet (audio_widgets inp (question_set_id (state p1)))
                      (state p1))
    by (simpl; by rewrite Hqid).
  rewrite Hrun by done.
  destruct (idle_pass inp p1 Hc Hg' Hup' Hquiet') as (-> & _).
  simpl. rewrite Hqid. fold audio. by rewrite Hfix.
Qed.

End Script.

(** ** The properties at concrete sessions *)

(** The scenario: the file is opened, two questions are generated, and
    the typed answers are stored stripped, with one space after them. *)
Example round_one_state :
  questions (state Scenario.round_one)
  = [mkQuestion "Esophagus" "How is a perforation managed?" "Drain and repair";
     mkQuestion "Pleura" "How is an empyema staged?" "Three stages"]
  ∧ user_answers (state Scenario.round_one) = ["Drain it "; "Three "]
  ∧ question_set_id (state Scenario.round_one) = 1
  ∧ generate_now (state Scenario.round_one) = false
  ∧ has_pdf_text Scenario.round_one = true
  ∧ uploaded_file_name Scenario.round_one = Some "manual.pdf".
Proof. by vm_compute. Qed.

Lemma round_one_reachable : reachable (state Scenario.round_one).
Proof. apply page_after_all_reachable. Qed.

Lemma round_one_has_questions : questions (state Scenario.round_one) ≠ [].
Proof. by destruct round_one_state as (-> & _). Qed.

Lemma no_audio_quiet q s : quiet (Scenario.no_audio q) s.
Proof. by intros i a. Qed.

(** At the session that stores the digest of the recording. *)
Lemma redelivered_recording_acts_as_none_witness :
  let s := Examples.answering "A B" (Some "digest-1") in
  let o := answer_slot 0 (Some Examples.recording_B) s in
  final o = final (answer_slot 0 None s) ∧ calls o = [].
Proof.
  destruct (redelivered_recording_acts_as_none 0 Examples.recording_B
              (Examples.answering "A B" (Some "digest-1")))
    as (Hf & _ & _ & Hc); [reflexivity|].
  split; [exact Hf | exact Hc].
Defined.

(** At a recording whose transcription fails. *)
Lemma unmerged_recording_is_sent_again_witness :
  let a := mkRecording "digest-2" transcription_failed in
  let o := answer_slot 0 (Some a) (Examples.answering "A" None) in
  calls o = [transcription_request "digest-2"] ∧
  calls (answer_slot 0 (Some a) (final o)) = [transcription_request "digest-2"].
Proof.
  destruct (unmerged_recording_is_sent_again 0
              (mkRecording "digest-2" transcription_failed)
              (Examples.answering "A" None))
    as (_ & _ & Hc & _ & Hc'); [by vm_compute | by left |].
  split; [exact Hc | exact Hc'].
Defined.


(** At the scenario, without recordings. *)
Lemma answers_block_mirrors_text_areas_witness :
  let s := state Scenario.round_one in
  let o := answers_block (Scenario.no_audio 1) s in
  uncaught o = None ∧ length (user_answers (final o)) = length (questions s).
Proof.
  destruct (answers_block_mirrors_text_areas (Scenario.no_audio 1)
              (state Scenario.round_one) round_one_has_questions)
    as (Hu & _ & Hl & _).
  split; [exact Hu | exact Hl].
Defined.

(** At a text area that holds an answer with surrounding spaces. *)
Lemma quiet_run_normalises_answers_witness :
  let s := Examples.answering "  Intubate " None in
  user_answers (final (answers_block (Scenario.no_audio 1) s)) !! 0%nat
  = Some "Intubate ".
Proof.
  destruct (quiet_run_normalises_answers (Scenario.no_audio 1)
              (Examples.answering "  Intubate " None) 0)
    as (_ & H & _); [done | apply no_audio_quiet | simpl; lia |].
  etrans; [exact H|]. by vm_compute.
Defined.

(** At the scenario. *)
Lemma quiet_run_is_idempotent_witness :
  let s1 := final (answers_block (Scenario.no_audio 1) (state Scenario.round_one)) in
  final (answers_block (Scenario.no_audio 1) s1) = s1.
Proof.
  destruct (quiet_run_is_idempotent (Scenario.no_audio 1)
              (state Scenario.round_one) (no_audio_quiet _ _)) as [_ H].
  exact H.
Defined.

(** At the second question of the scenario. *)
Lemma typed_answer_is_graded_witness :
  let o := run_evaluate (Scenario.no_audio 1) service_error
             (type_answer 1 " Three stages " (state Scenario.round_one)) in
  ∃ items,
    calls o = [grading_request items] ∧
    items !! 1%nat
    = Some (mkGradingItem "How is an empyema staged?" "Three stages"
              "Three stages ").
Proof.
  destruct (typed_answer_is_graded (Scenario.no_audio 1) service_error
              (state Scenario.round_one) 1 " Three stages "
              (mkQuestion "Pleura" "How is an empyema staged?" "Three stages"))
    as (items & Hc & _ & Hi); [apply no_audio_quiet | by vm_compute |].
  exists items. split; [exact Hc|]. etrans; [exact Hi|]. by vm_compute.
Defined.

(** At the scenario. *)
Lemma stored_sets_are_numbered_witness :
  let s := state Scenario.round_one in
  current_set_id s = set_id <$> last (history s).
Proof.
  destruct (stored_sets_are_numbered (state Scenario.round_one)
              round_one_reachable) as (_ & _ & H).
  exact H.
Defined.

(** At the scenario. *)
Lemma one_answer_per_question_witness :
  length (user_answers (state Scenario.round_one))
  = length (questions (state Scenario.round_one)).
Proof.
  exact (one_answer_per_question (state Scenario.round_one) round_one_reachable).
Defined.

(** At the scenario. *)
Lemma active_questions_are_newest_set_witness :
  let s := state Scenario.round_one in
  ∃ st, last (history s) = Some st ∧ set_questions st = questions s
        ∧ current_set_id s = Some (set_id st).
Proof.
  exact (active_questions_are_newest_set (state Scenario.round_one)
           round_one_reachable round_one_has_questions).
Defined.

(** At the scenario: a new set is asked for and generated. *)
Lemma new_round_starts_blank_witness :
  let s := state Scenario.round_one in
  let o := attempt_generate_new_set true 2 (parsed Examples.two_items)
             "2024-05-01 10:05:00" s in
  question_set_id (final o) = question_set_id s + 1 ∧
  ∀ i, (i < length (questions (final o)))%nat →
       user_answers (final (answers_block (Scenario.no_audio 2) (final o))) !! i
       = Some "".
Proof.
  destruct (new_round_starts_blank (Scenario.no_audio 2) true 2
              (parsed Examples.two_items) "2024-05-01 10:05:00"
              (state Scenario.round_one) true round_one_reachable
              round_one_has_questions)
    as (_ & Hq & _ & Hb).
  split; [exact Hq|]. apply Hb, no_audio_quiet.
Defined.

(** At the scenario. *)
Lemma stored_topics_are_clean_witness :
  let s := state Scenario.round_one in
  Forall (λ st, set_questions st ≠ [] ∧ Forall stripped (set_questions st))
    (history s) ∧
  Forall (λ t, PyStr.nonempty t = true ∧ PyStr.strip t = t) (get_used_topics s).
Proof.
  destruct (stored_topics_are_clean (state Scenario.round_one)
              round_one_reachable) as (Hsets & H).
  split; [exact Hsets|]. apply Forall_forall. intros t Ht.
  destruct (H t Ht) as (Hn & Hs & _). split; [exact Hn | exact Hs].
Defined.

(** At the session that stores the digest of the recording. *)
Lemma digests_survive_new_round_witness :
  let s := Examples.answering "A B" (Some "digest-1") in
  let s' := final (attempt_generate_new_set true 1 (parsed Examples.two_items)
                     "2024-05-01 10:05:00" s) in
  notices (answer_slot 0 (Some Examples.recording_B) s')
  = [info_already_transcribed].
Proof.
  destruct (digests_survive_new_round true 1 (parsed Examples.two_items)
              "2024-05-01 10:05:00"
              (Examples.answering "A B" (Some "digest-1")) 0
              Examples.recording_B)
    as (_ & H & _); [reflexivity|].
  exact H.
Defined.

(** At the scores 7 and 8: the line shows 15/20 and a percentage
    within 0.05 of 75. *)
Lemma score_line_is_accurate_witness :
  ∃ k, notices (click_evaluate
                  (parsed (JList [Examples.evaluation 7; Examples.evaluation 8]))
                  (state Scenario.round_one))
       = [success_evaluation_complete;
          markdown_total_score 15 20 (PyFloat.of_decimal false k 1);
          success_evaluation_complete]
       ∧ 2 * Z.abs (k * 20 - 1000 * 15) ≤ 20.
Proof.
  destruct (score_line_is_accurate
              [Examples.evaluation 7; Examples.evaluation 8] [7; 8]
              (state Scenario.round_one))
    as (k & Hn & _ & _ & _ & Hk);
    [simpl; lia | by repeat constructor | repeat constructor; lia |].
  exists k. split; [exact Hn | exact Hk].
Defined.

(** At a scanned file on a new page. *)
Lemma textless_upload_blocks_generation_witness :
  let p1 := (upload_block (Some Scenario.scan) initial_page).1 in
  warning_no_text_extracted ∈ (upload_block (Some Scenario.scan) initial_page).2 ∧
  attempt_generate_questions 2 (parsed Examples.two_items)
    "2024-05-01 10:00:00" (state p1)
  = mkOutcome (state p1) [error_no_text_extracted] [] None.
Proof.
  destruct (textless_upload_blocks_generation Scenario.scan initial_page 2
              (parsed Examples.two_items) "2024-05-01 10:00:00")
    as (_ & Hw & He); [reflexivity | reflexivity |].
  assert (Hblank : Forall (λ t, t = "") (page_texts Scenario.scan))
    by (by repeat constructor).
  split; [by apply Hw | by apply He].
Defined.

(** At the scenario. *)
Lemma idle_run_changes_nothing_witness :
  let r := script_run (Scenario.widgets no_click) service_error
             "2024-05-01 10:02:00" Scenario.round_one in
  calls (pass_outcome r) = [] ∧
  page_after (script_run (Scenario.widgets no_click) service_error
                "2024-05-01 10:03:00" (page_after r))
  = page_after r.
Proof.
  destruct (idle_run_changes_nothing (Scenario.widgets no_click) service_error
              "2024-05-01 10:02:00" Scenario.round_one)
    as (Hc & _ & _ & _ & _ & Hfix);
    [reflexivity | by vm_compute | by vm_compute | apply no_audio_quiet |].
  split; [exact Hc | apply Hfix].
Defined.
